(** * geminimcp: the streaming pipeline of [server.py]

    A shallow embedding of [src/geminimcp/server.py]: the reader thread
    [read_output], the polling generator [run_shell_command] and the tool
    function [gemini] that folds the streamed lines into a result dict.

    The two threads meet only at the bounded queue, so each side is modelled
    as a sequential program run against what its environment hands it: the
    reader against the lines the pipe delivers and the outcome of each
    [queue.put], the generator against the clock readings and the outcome of
    each [queue.get].  Calls with an effect on the outside world are recorded,
    in order, in a trace. *)

From Stdlib Require Import String Ascii List ZArith QArith Bool Arith Lia DecimalString.
Import ListNotations.
Close Scope Q_scope.
Open Scope string_scope.

(** ** The Python values the program handles *)

Set Warnings "-register-all".

Module Py.

(** What [json.loads] can return.  Python's [None] is [JNull]; a float keeps
    the text of its literal, the program never looks inside one. *)
Inductive json : Type :=
| JNull
| JBool (b : bool)
| JInt (z : Z)
| JFloat (literal : string)
| JStr (s : string)
| JArr (items : list json)
| JObj (fields : list (string * json)).

(** A [dict] with string keys, in insertion order. *)
Definition dict := list (string * json).

(** [type(v).__name__] *)
Definition type_name (v : json) : string :=
  match v with
  | JNull => "NoneType"
  | JBool _ => "bool"
  | JInt _ => "int"
  | JFloat _ => "float"
  | JStr _ => "str"
  | JArr _ => "list"
  | JObj _ => "dict"
  end.

(** [d.get(k, default)] *)
Fixpoint dict_get (d : dict) (k : string) (default : json) : json :=
  match d with
  | [] => default
  | (k', v) :: d' => if String.eqb k' k then v else dict_get d' k default
  end.

(** [k in d] *)
Definition dict_has (d : dict) (k : string) : bool :=
  existsb (fun kv => String.eqb (fst kv) k) d.

(** [d[k] = v]: an existing key keeps its place, a new one goes last. *)
Fixpoint dict_set (d : dict) (k : string) (v : json) : dict :=
  match d with
  | [] => [(k, v)]
  | (k', v') :: d' =>
      if String.eqb k' k then (k', v) :: d' else (k', v') :: dict_set d' k v
  end.

(** [v == s] for a [str] [s]: only an equal [str] compares equal. *)
Definition eq_str (v : json) (s : string) : bool :=
  match v with
  | JStr s' => String.eqb s' s
  | _ => false
  end.

(** [v is None] *)
Definition is_None (v : json) : bool :=
  match v with
  | JNull => true
  | _ => false
  end.

(** The exceptions the program meets besides [json.JSONDecodeError]: the
    three the body of the consumer's [try] can raise on a decoded value, and
    the two [json.loads] itself raises that are no decode error, on a text
    nested too deep and on an integer literal of too many digits. *)
Inductive py_error : Type :=
| NoAttribute (ty attr : string)      (* AttributeError: ty has no attr *)
| NotIterable (ty : string)           (* TypeError of [x in v] *)
| CannotConcat (ty : string)          (* TypeError of [str + v] *)
| RecursionError (message : string)
| ValueError (message : string).

(** What a call of [json.loads] on a [str] comes to: a value, a
    [json.JSONDecodeError], or another exception. *)
Inductive loads_result : Type :=
| Loaded (value : json)
| DecodeError
| LoadsRaises (error : py_error).

(** *** Strings *)

Definition LF : string := String (ascii_of_nat 10) "".

(** [c.isspace()] on the code points below 256. *)
Definition is_space (c : ascii) : bool :=
  let n := nat_of_ascii c in
  ((9 <=? n)%nat && (n <=? 13)%nat) || ((28 <=? n)%nat && (n <=? 32)%nat)
  || (n =? 133)%nat || (n =? 160)%nat.

Definition is_empty (s : string) : bool :=
  match s with
  | EmptyString => true
  | String _ _ => false
  end.

Fixpoint lstrip (s : string) : string :=
  match s with
  | EmptyString => EmptyString
  | String c s' => if is_space c then lstrip s' else s
  end.

Fixpoint rstrip (s : string) : string :=
  match s with
  | EmptyString => EmptyString
  | String c s' =>
      let r := rstrip s' in
      if is_space c && is_empty r then EmptyString else String c r
  end.

(** [s.strip()] *)
Definition strip (s : string) : string := rstrip (lstrip s).

(** [s[:n]] *)
Fixpoint slice_to (n : nat) (s : string) : string :=
  match n, s with
  | O, _ => EmptyString
  | _, EmptyString => EmptyString
  | S n', String c s' => String c (slice_to n' s')
  end.

(** [needle in hay] for two [str]. *)
Fixpoint contains (needle hay : string) : bool :=
  String.prefix needle hay ||
  match hay with
  | EmptyString => false
  | String _ hay' => contains needle hay'
  end.

(** [needle in v]: substring test on a [str], membership on a [list], key
    test on a [dict]; the other types are not iterable. *)
Definition py_in (needle : string) (v : json) : py_error + bool :=
  match v with
  | JStr s => inr (contains needle s)
  | JArr items => inr (existsb (fun x => eq_str x needle) items)
  | JObj d => inr (dict_has d needle)
  | other => inl (NotIterable (type_name other))
  end.

(** [str(n)] for an [int]. *)
Definition str_of_int (n : Z) : string := NilZero.string_of_int (Z.to_int n).

End Py.
Import Py.

(** ** The program *)

Definition DEFAULT_TIMEOUT : Z := 300.
Definition GRACEFUL_SHUTDOWN_DELAY : Q := (3 # 10)%Q.

(** The text [gemini] looks for to skip the CLI's deprecation warning. *)
Definition DEPRECATION_NOTICE : string :=
  "The --prompt (-p) flag has been deprecated".

(** *** What the environment hands to the reader thread *)

(** One call of [process.stdout.readline()]: a line, together with whether
    the [put] of that line finds the queue full for its whole timeout, or an
    exception from the read.  The end of the list, like the line [""], is
    the end of the stream. *)
Inductive pipe_event : Type :=
| Line (raw : string) (queue_full : bool)
| ReadError.

(** The calls the reader thread makes, as the trace records them.  A [Put]
    carries the item, the [timeout] argument it was called with ([None] when
    the call has none) and whether it raised [queue.Full]. *)
Inductive relay_call : Type :=
| Readline (result : option string)
| Put (item : option string) (timeout : option Q) (full : bool)
| Sleep (seconds : Q)
| Terminate
| CloseStdout.

(** Why the reader's [for] loop was left: the end of the stream, the
    [break] of a sentinel, an exception of the read, or an exception of the
    sentinel check. *)
Inductive relay_exit : Type :=
| StreamClosed
| SentinelSeen
| ReadFailed
| CheckFailed.

(** *** What the environment hands to the generator *)

(** One [output_queue.get(timeout=0.5)]: an item, or [queue.Empty] together
    with what [process.poll() is not None] and [thread.is_alive()] answer. *)
Inductive get_result : Type :=
| Got (item : option string)
| Empty (exited thread_alive : bool).

(** One turn of the generator's [while True]: the value of
    [time.time() - start_time] and the outcome of the [get]. *)
Record poll : Type := {
  elapsed : Q;
  got : get_result
}.

Record shell_env : Type := {
  polls : list poll;
  (* [process.wait(timeout=5)] raises [TimeoutExpired] *)
  wait5_expired : bool;
  (* [process.wait(timeout=2)] after a [kill()] raises [TimeoutExpired] *)
  wait2_expired : bool;
  (* what [get_nowait()] returns while [output_queue.empty()] is false *)
  residue : list (option string)
}.

(** The calls of the generator that block or act on the process. *)
Inductive shell_call : Type :=
| Get (timeout : Q) (result : get_result)
| GetNowait (item : option string)
| Kill
| Wait (timeout : Q) (expired : bool)
| Join (timeout : Q).

Inductive gen_event : Type :=
| Call (c : shell_call)
| Yield (line : string).

(** How the generator ends: it returns, it raises [GeminiTimeoutError], or
    the environment's polls ran out while its loop was still turning. *)
Inductive gen_end : Type :=
| Return
| RaiseTimeout (message : string)
| Polling.

(** *** The outcome of [subprocess.run(["gemini", "--version"], ...)] *)
Inductive probe : Type :=
| Completed (returncode : Z) (stdout : string)
| TimeoutExpired
| FileNotFound
| OtherException (text : string).

(** [check_gemini_auth] *)
Definition check_gemini_auth (p : probe) : bool * string :=
  match p with
  | Completed returncode stdout => (Z.eqb returncode 0, strip stdout)
  | TimeoutExpired => (false, "Gemini CLI timed out during auth check")
  | FileNotFound => (false, "Gemini CLI not found in PATH")
  | OtherException e => (false, "Auth check failed: " ++ e)
  end.

(** The accumulators of [gemini]. *)
Record aggregate : Type := {
  all_messages : list json;
  agent_messages : string;
  err_message : string;
  thread_id : json
}.

Definition initial : aggregate :=
  {| all_messages := []; agent_messages := ""; err_message := "";
     thread_id := JNull |}.

Inductive flow : Type :=
| Continue
| Break.

(** How the [for] loop of [gemini] was left. *)
Inductive loop_exit : Type :=
| Exhausted
| Broke
| TimedOut (message : string)
| StillPolling.

Record run : Type := {
  final : aggregate;
  calls : list shell_call;
  exit : loop_exit
}.

Record gemini_args : Type := {
  PROMPT : string;
  sandbox : bool;
  SESSION_ID : string;
  return_all_messages : bool;
  model : string;
  timeout : Z
}.

Record gemini_env : Type := {
  cd_exists : bool;
  (* [cd.absolute().as_posix()] *)
  cd_posix : string;
  auth_probe : probe;
  shell : shell_env
}.

(** ** A decoder and an interpreter's wording to run the program on

    The theorems below hold for whatever [json.loads] and [str(error)]
    return.  To evaluate the program on concrete lines this module gives a
    decoder for the JSON texts used here (objects, arrays, strings with the
    one-letter escapes, integers with the [ValueError] of a literal of more
    than 4300 digits, [true], [false], [null]) and CPython's wording of the
    exceptions. *)

Module Concrete.

Local Open Scope char_scope.

Definition dquote : ascii := "034".
Definition backslash : ascii := "092".

(** Lines are written with ['] where the JSON text has the double quote. *)
Fixpoint text (s : string) : string :=
  match s with
  | EmptyString => EmptyString
  | String c s' => String (if Ascii.eqb c "'" then dquote else c) (text s')
  end.

Definition is_json_ws (c : ascii) : bool :=
  Ascii.eqb c " " || Ascii.eqb c "009" || Ascii.eqb c "010" || Ascii.eqb c "013".

Fixpoint skip_ws (s : string) : string :=
  match s with
  | String c s' => if is_json_ws c then skip_ws s' else s
  | EmptyString => EmptyString
  end.

Definition unescape (c : ascii) : option ascii :=
  if Ascii.eqb c dquote then Some dquote
  else if Ascii.eqb c backslash then Some backslash
  else if Ascii.eqb c "/" then Some "/"
  else if Ascii.eqb c "n" then Some "010"
  else if Ascii.eqb c "t" then Some "009"
  else if Ascii.eqb c "r" then Some "013"
  else if Ascii.eqb c "b" then Some "008"
  else if Ascii.eqb c "f" then Some "012"
  else None.

(** The characters of a string literal after its opening quote, and what
    follows the closing one. *)
Fixpoint string_body (s : string) : option (string * string) :=
  match s with
  | EmptyString => None
  | String c rest =>
      if Ascii.eqb c dquote then Some (EmptyString, rest)
      else if Ascii.eqb c backslash then
        match rest with
        | String e rest' =>
            match unescape e, string_body rest' with
            | Some c', Some (body, after) => Some (String c' body, after)
            | _, _ => None
            end
        | EmptyString => None
        end
      else if (nat_of_ascii c <? 32)%nat then None
      else
        match string_body rest with
        | Some (body, after) => Some (String c body, after)
        | None => None
        end
  end.

Definition is_digit (c : ascii) : bool :=
  (48 <=? nat_of_ascii c)%nat && (nat_of_ascii c <=? 57)%nat.

(** What reading a value at the head of a text comes to. *)
Inductive parsed : Type :=
| Parsed (v : json) (rest : string)
| Malformed
| Crash (error : py_error).

(** The value of a run of digits read after [acc], how many digits were
    read after [count], and what follows the run. *)
Fixpoint digits (s : string) (acc : Z) (count : nat) : Z * nat * string :=
  match s with
  | String c s' =>
      if is_digit c
      then digits s' (10 * acc + Z.of_nat (nat_of_ascii c - 48))%Z (S count)
      else (acc, count, s)
  | EmptyString => (acc, count, s)
  end.

Definition starts_number (s : string) : bool :=
  match s with
  | String c _ => is_digit c
  | EmptyString => false
  end.

(** The [ValueError] of [int] on a literal of more than 4300 digits. *)
Definition too_long (count : nat) : py_error :=
  ValueError
    ("Exceeds the limit (4300 digits) for integer string conversion: value has "
     ++ str_of_int (Z.of_nat count)
     ++ " digits; use sys.set_int_max_str_digits() to increase the limit")%string.

(** An integer literal; a fraction or an exponent is not read. *)
Definition number (s : string) : parsed :=
  match s with
  | String c s' =>
      if Ascii.eqb c "-" then
        if starts_number s'
        then let '(n, count, after) := digits s' 0%Z 0 in
             if (4300 <? count)%nat then Crash (too_long count)
             else Parsed (JInt (- n)%Z) after
        else Malformed
      else if is_digit c
      then let '(n, count, after) := digits s 0%Z 0 in
           if (4300 <? count)%nat then Crash (too_long count)
           else Parsed (JInt n) after
      else Malformed
  | EmptyString => Malformed
  end.

Definition after_prefix (p s : string) : option string :=
  if String.prefix p s
  then Some (String.substring (String.length p)
               (String.length s - String.length p) s)
  else None.

Fixpoint value (fuel : nat) (s : string) {struct fuel} : parsed :=
  match fuel with
  | O => Malformed
  | S fuel' =>
      match skip_ws s with
      | EmptyString => Malformed
      | String c rest =>
          if Ascii.eqb c "{" then
            match skip_ws rest with
            | String c' rest' =>
                if Ascii.eqb c' "}" then Parsed (JObj []) rest'
                else members fuel' (String c' rest') []
            | EmptyString => Malformed
            end
          else if Ascii.eqb c "[" then
            match skip_ws rest with
            | String c' rest' =>
                if Ascii.eqb c' "]" then Parsed (JArr []) rest'
                else elements fuel' (String c' rest') []
            | EmptyString => Malformed
            end
          else if Ascii.eqb c dquote then
            match string_body rest with
            | Some (body, after) => Parsed (JStr body) after
            | None => Malformed
            end
          else
            match after_prefix "true" (String c rest),
                  after_prefix "false" (String c rest),
                  after_prefix "null" (String c rest) with
            | Some after, _, _ => Parsed (JBool true) after
            | _, Some after, _ => Parsed (JBool false) after
            | _, _, Some after => Parsed JNull after
            | None, None, None => number (String c rest)
            end
      end
  end

with elements (fuel : nat) (s : string) (acc : list json) {struct fuel}
  : parsed :=
  match fuel with
  | O => Malformed
  | S fuel' =>
      match value fuel' s with
      | Parsed v after =>
          match skip_ws after with
          | String c rest =>
              if Ascii.eqb c "," then elements fuel' rest (acc ++ [v])
              else if Ascii.eqb c "]" then Parsed (JArr (acc ++ [v])) rest
              else Malformed
          | EmptyString => Malformed
          end
      | Malformed => Malformed
      | Crash error => Crash error
      end
  end

with members (fuel : nat) (s : string) (acc : dict) {struct fuel}
  : parsed :=
  match fuel with
  | O => Malformed
  | S fuel' =>
      match skip_ws s with
      | String q rest =>
          if Ascii.eqb q dquote then
            match string_body rest with
            | Some (key, after_key) =>
                match skip_ws after_key with
                | String colon after_colon =>
                    if Ascii.eqb colon ":" then
                      match value fuel' after_colon with
                      | Parsed v after =>
                          match skip_ws after with
                          | String c rest' =>
                              if Ascii.eqb c ","
                              then members fuel' rest' (dict_set acc key v)
                              else if Ascii.eqb c "}"
                              then Parsed (JObj (dict_set acc key v)) rest'
                              else Malformed
                          | EmptyString => Malformed
                          end
                      | Malformed => Malformed
                      | Crash error => Crash error
                      end
                    else Malformed
                | EmptyString => Malformed
                end
            | None => Malformed
            end
          else Malformed
      | EmptyString => Malformed
      end
  end.

Definition json_loads (s : string) : loads_result :=
  match value (2 * String.length s + 2) s with
  | Parsed v after => if is_empty (skip_ws after) then Loaded v else DecodeError
  | Malformed => DecodeError
  | Crash error => LoadsRaises error
  end.

Local Open Scope string_scope.

(** CPython 3.12's wording; the two exceptions of [json.loads] carry
    theirs. *)
Definition str_of_error (e : py_error) : string :=
  match e with
  | NoAttribute ty attr => "'" ++ ty ++ "' object has no attribute '" ++ attr ++ "'"
  | NotIterable ty => "argument of type '" ++ ty ++ "' is not iterable"
  | CannotConcat ty =>
      "can only concatenate str (not " ++ String dquote ty
      ++ String dquote ") to str"
  | RecursionError message => message
  | ValueError message => message
  end.

End Concrete.

(** ** Sample streams *)

Module Sample.

Import Concrete.

Fixpoint replicate (n : nat) (c : ascii) : string :=
  match n with
  | O => EmptyString
  | S n' => String c (replicate n' c)
  end.

Definition init_a : string := text "{'type':'init','session_id':'a'}".

Definition hello : string :=
  text "{'type':'message','role':'assistant','content':'Hello'}".

Definition world_b : string :=
  text "{'type':'message','role':'assistant','content':' world','session_id':'b'}".

Definition tool_use : string :=
  text "{'type':'tool_use','tool_name':'read_file'}".

(** The warning the CLI prints: the text [gemini] looks for, and more. *)
Definition warning : string :=
  "The --prompt (-p) flag has been deprecated and will be removed in a "
  ++ "future version. Please use a positional argument for your prompt.".

Definition warned : string :=
  text "{'type':'message','role':'assistant','content':'" ++ warning
  ++ text "'}".

Definition warned_b : string :=
  text "{'type':'message','role':'assistant','content':'" ++ warning
  ++ text "','session_id':'b'}".

Definition completed : string := text "{'type':'turn.completed'}".

(** An assistant message whose content is a list. *)
Definition parts : string :=
  text "{'type':'message','role':'assistant','content':['Hello']}".

Definition noise : string := "Loaded cached credentials.".

(** An integer literal of 4301 digits: [json.loads] raises [ValueError]. *)
Definition overlong : string := replicate 4301 "1".

(** 200 characters that are not JSON. *)
Definition long_noise : string := replicate 200 "x".

(** A line as [readline] returns it. *)
Definition raw (line : string) : string := line ++ LF.

Definition line_turn (line : string) : poll :=
  {| elapsed := 1%Q; got := Got (Some line) |}.

Definition closing : poll := {| elapsed := 2%Q; got := Got None |}.

Definition late : poll := {| elapsed := 301%Q; got := Got (Some hello) |}.

Definition env_of (turns : list poll) : gemini_env :=
  {| cd_exists := true;
     cd_posix := "/work";
     auth_probe := Completed 0 "0.20.0";
     shell := {| polls := turns; wait5_expired := false;
                 wait2_expired := false; residue := [] |} |}.

(** The environment of a run that gets [lines] and then the marker. *)
Definition stream (lines : list string) : gemini_env :=
  env_of (map line_turn lines ++ [closing]).

Definition ask (return_all : bool) : gemini_args :=
  {| PROMPT := "hi"; sandbox := false; SESSION_ID := "";
     return_all_messages := return_all; model := "";
     timeout := DEFAULT_TIMEOUT |}.

(** A run whose reader dies without a marker, two lines and a marker
    still being in the queue. *)
Definition draining : shell_env :=
  {| polls := [line_turn init_a;
               {| elapsed := 2%Q; got := Empty false true |};
               {| elapsed := 3%Q; got := Empty true false |};
               closing];
     wait5_expired := false;
     wait2_expired := false;
     residue := [Some hello; None; Some world_b] |}.

(** The workspace directory is missing. *)
Definition no_directory : gemini_env :=
  {| cd_exists := false;
     cd_posix := "/nowhere";
     auth_probe := Completed 0 "0.20.0";
     shell := draining |}.

(** The CLI is not installed. *)
Definition no_cli : gemini_env :=
  {| cd_exists := true;
     cd_posix := "/work";
     auth_probe := FileNotFound;
     shell := draining |}.

Definition hurried : gemini_args :=
  {| PROMPT := "hi"; sandbox := false; SESSION_ID := "";
     return_all_messages := true; model := ""; timeout := (-1)%Z |}.

End Sample.

Section Server.

(** [json.loads] on a [str]. *)
Variable json_loads : string -> loads_result.

(** [str(error)] for the exceptions of [py_error]; the wording is the
    interpreter's. *)
Variable str_of_error : py_error -> string.

(** *** [run_shell_command]: the reader thread *)

(** [is_turn_completed]: a value without [.get] raises [AttributeError],
    which the function catches like the decode error; another exception of
    [json.loads] is not caught and leaves the function. *)
Definition is_turn_completed (line : string) : py_error + bool :=
  match json_loads line with
  | Loaded (JObj data) =>
      inr (eq_str (dict_get data "type" JNull) "turn.completed")
  | Loaded _ => inr false
  | DecodeError => inr false
  | LoadsRaises error => inl error
  end.

(** The [for line in iter(process.stdout.readline, "")] loop of
    [read_output]. *)
Fixpoint read_loop (pipe : list pipe_event) : list relay_call * relay_exit :=
  match pipe with
  | [] => ([Readline (Some "")], StreamClosed)
  | ReadError :: _ => ([Readline None], ReadFailed)
  | Line raw queue_full :: rest =>
      if is_empty raw then ([Readline (Some "")], StreamClosed)
      else
        let stripped := strip raw in
        let put := Put (Some stripped) (Some 1%Q) queue_full in
        if queue_full then
          (* except queue.Full: continue *)
          let (trace, why) := read_loop rest in
          (Readline (Some raw) :: put :: trace, why)
        else
          match is_turn_completed stripped with
          | inl _ => ([Readline (Some raw); put], CheckFailed)
          | inr true =>
              ([Readline (Some raw); put;
                Sleep GRACEFUL_SHUTDOWN_DELAY; Terminate],
               SentinelSeen)
          | inr false =>
              let (trace, why) := read_loop rest in
              (Readline (Some raw) :: put :: trace, why)
          end
  end.

(** [read_output].  [process.stdout] is the pipe [Popen] was asked for, so
    the [if] around the [try] is taken.  The [finally] closes the stream on
    every exit; an exception raised in the loop then leaves the function,
    past the final [output_queue.put(None)]. *)
Definition read_output (pipe : list pipe_event) : list relay_call * relay_exit :=
  let (trace, why) := read_loop pipe in
  match why with
  | ReadFailed | CheckFailed => ((trace ++ [CloseStdout])%list, why)
  | StreamClosed | SentinelSeen =>
      ((trace ++ [CloseStdout; Put None None false])%list, why)
  end.

(** *** [run_shell_command]: the generator *)

Definition timeout_message (timeout : Z) : string :=
  "Gemini CLI execution timed out after " ++ str_of_int timeout ++ " seconds. "
  ++ "This may indicate the CLI is waiting for authentication or is stuck.".

(** The [# Drain remaining queue items] loop. *)
Fixpoint drain (items : list (option string)) : list gen_event :=
  match items with
  | [] => []
  | Some line :: rest => Call (GetNowait (Some line)) :: Yield line :: drain rest
  | None :: rest => Call (GetNowait None) :: drain rest
  end.

(** What follows the [while True] loop: reap the process, join the thread,
    drain the queue. *)
Definition cleanup (env : shell_env) : list gen_event :=
  (Call (Wait 5%Q (wait5_expired env))
   :: (if wait5_expired env
       then [Call Kill; Call (Wait 2%Q (wait2_expired env))]
       else [])
   ++ Call (Join 5%Q) :: drain (residue env))%list.

(** The [while True] loop, followed by what comes after it. *)
Fixpoint poll_loop (timeout : Z) (env : shell_env) (turns : list poll)
  : list gen_event * gen_end :=
  match turns with
  | [] => ([], Polling)
  | turn :: rest =>
      if negb (Qle_bool (elapsed turn) (inject_Z timeout)) then
        (* elapsed > timeout *)
        ([Call Kill; Call (Wait 2%Q (wait2_expired env))],
         RaiseTimeout (timeout_message timeout))
      else
        let get := Call (Get (1 # 2)%Q (got turn)) in
        match got turn with
        | Got None => (get :: cleanup env, Return)
        | Got (Some line) =>
            let (events, fin) := poll_loop timeout env rest in
            (get :: Yield line :: events, fin)
        | Empty exited thread_alive =>
            if exited && negb thread_alive then (get :: cleanup env, Return)
            else
              let (events, fin) := poll_loop timeout env rest in
              (get :: events, fin)
        end
  end.

(** [run_shell_command], once [Popen] has returned the process and the
    reader thread is started: everything the generator does if it is resumed
    until it ends. *)
Definition run_shell_command (timeout : Z) (env : shell_env)
  : list gen_event * gen_end :=
  poll_loop timeout env (polls env).

(** *** [gemini] *)

Definition is_assistant_message (line_dict : dict) : bool :=
  eq_str (dict_get line_dict "type" (JStr "")) "message"
  && eq_str (dict_get line_dict "role" (JStr "")) "assistant".

(** [if line_dict.get("session_id") is not None: thread_id = ...] *)
Definition track_session (line_dict : dict) (st : aggregate) : aggregate :=
  if is_None (dict_get line_dict "session_id" JNull) then st
  else {| all_messages := all_messages st;
          agent_messages := agent_messages st;
          err_message := err_message st;
          thread_id := dict_get line_dict "session_id" JNull |}.

(** The body of the inner [try] after [json.loads] has returned
    [line_dict]: the state it leaves, and the exception it raised if any.
    The [continue] of the deprecation test leaves before the session
    identifier is looked at. *)
Definition handle_event (line_dict : json) (st : aggregate)
  : aggregate * option py_error :=
  let st1 := {| all_messages := (all_messages st ++ [line_dict])%list;
                agent_messages := agent_messages st;
                err_message := err_message st;
                thread_id := thread_id st |} in
  match line_dict with
  | JObj d =>
      if is_assistant_message d then
        let content := dict_get d "content" (JStr "") in
        match py_in DEPRECATION_NOTICE content with
        | inl error => (st1, Some error)
        | inr true => (st1, None)
        | inr false =>
            match content with
            | JStr c =>
                (track_session d
                   {| all_messages := all_messages st1;
                      agent_messages := agent_messages st1 ++ c;
                      err_message := err_message st1;
                      thread_id := thread_id st1 |}, None)
            | other => (st1, Some (CannotConcat (type_name other)))
            end
        end
      else (track_session d st1, None)
  | other => (st1, Some (NoAttribute (type_name other) "get"))
  end.

Definition log_error (st : aggregate) (err : string) : aggregate :=
  {| all_messages := all_messages st;
     agent_messages := agent_messages st;
     err_message := err;
     thread_id := thread_id st |}.

(** One pass through the body of [for line in run_shell_command(...)]. *)
Definition process_line (st : aggregate) (line : string) : aggregate * flow :=
  match json_loads (strip line) with
  | DecodeError =>
      (* except json.JSONDecodeError *)
      (if (String.length (err_message st) <? 2000)%nat
       then log_error st (err_message st ++ LF ++ "[json decode error] "
                          ++ slice_to 200 line)
       else st,
       Continue)
  | LoadsRaises error =>
      (* except Exception as error, nothing having been appended *)
      (log_error st (err_message st ++ LF ++ "[unexpected error] "
                     ++ str_of_error error),
       Break)
  | Loaded line_dict =>
      match handle_event line_dict st with
      | (st', None) => (st', Continue)
      | (st', Some error) =>
          (* except Exception as error *)
          (log_error st' (err_message st' ++ LF ++ "[unexpected error] "
                          ++ str_of_error error),
           Break)
      end
  end.

(** How the loop is left when the generator ends and no [break] came. *)
Definition exit_of (fin : gen_end) : loop_exit :=
  match fin with
  | Return => Exhausted
  | RaiseTimeout message => TimedOut message
  | Polling => StillPolling
  end.

(** The [for] loop of [gemini] over what the generator does.  A [break]
    drops the generator where it stands: what it would have done next does
    not happen. *)
Fixpoint for_loop (events : list gen_event) (fin : gen_end) (st : aggregate)
  : run :=
  match events with
  | [] => {| final := st; calls := []; exit := exit_of fin |}
  | Call c :: rest =>
      let r := for_loop rest fin st in
      {| final := final r; calls := c :: calls r; exit := exit r |}
  | Yield line :: rest =>
      match process_line st line with
      | (st', Continue) => for_loop rest fin st'
      | (st', Break) => {| final := st'; calls := []; exit := Broke |}
      end
  end.

Definition NO_SESSION : string :=
  "Failed to get `SESSION_ID` from the gemini session.".

Definition NO_AGENT_MESSAGES : string :=
  "Failed to retrieve `agent_messages` from the Gemini session. "
  ++ "This might be due to Gemini performing a tool call. "
  ++ "You can continue using the `SESSION_ID` to proceed.".

(** [# Validate results]: the verdict and the error text. *)
Definition validate (st : aggregate) : bool * string :=
  let success := true in
  let err := err_message st in
  let '(success, err) :=
    if is_None (thread_id st)
    then (false, NO_SESSION ++ LF ++ err)
    else (success, err) in
  if success && (String.length (agent_messages st) =? 0)%nat
  then (false, NO_AGENT_MESSAGES ++ LF ++ err)
  else (success, err).

(** [# Build result] *)
Definition build_result (st : aggregate) (return_all : bool) : dict :=
  let (success, err) := validate st in
  let result :=
    if success
    then [("success", JBool true);
          ("SESSION_ID", thread_id st);
          ("agent_messages", JStr (agent_messages st))]
    else [("success", JBool false); ("error", JStr (strip err))] in
  if return_all then dict_set result "all_messages" (JArr (all_messages st))
  else result.

(** [gemini]: the calls made on the process and the dict returned; no dict
    while the generator is still polling. *)
Definition gemini (env : gemini_env) (args : gemini_args)
  : list shell_call * option dict :=
  if negb (cd_exists env) then
    ([], Some [("success", JBool false);
               ("error", JStr ("The workspace root directory `" ++ cd_posix env
                               ++ "` does not exist."))])
  else
    let (auth_ok, auth_msg) := check_gemini_auth (auth_probe env) in
    if negb auth_ok then
      ([], Some [("success", JBool false);
                 ("error", JStr ("Gemini CLI authentication check failed: "
                                 ++ auth_msg ++ ". "
                                 ++ "Please run 'gemini auth login' manually in your terminal."))])
    else
      let (events, fin) := run_shell_command (timeout args) (shell env) in
      let r := for_loop events fin initial in
      match exit r with
      | TimedOut e =>
          (calls r,
           Some [("success", JBool false);
                 ("error", JStr e);
                 ("all_messages",
                  if return_all_messages args
                  then JArr (all_messages (final r)) else JNull)])
      | StillPolling => (calls r, None)
      | Exhausted | Broke =>
          (calls r, Some (build_result (final r) (return_all_messages args)))
      end.


(** *** The command line *)

(** The [cmd] list of [gemini]: an empty [model] or [SESSION_ID] is falsy
    and adds nothing. *)
Definition build_cmd (args : gemini_args) : list string :=
  (["gemini"; "--prompt"; PROMPT args; "-o"; "stream-json"]
   ++ (if sandbox args then ["--sandbox"] else [])
   ++ (if is_empty (model args) then [] else ["--model"; model args])
   ++ (if is_empty (SESSION_ID args) then []
       else ["--resume"; SESSION_ID args]))%list.

(** The [popen_cmd] of [run_shell_command]: a copy of [cmd] whose first
    element is [shutil.which("gemini") or cmd[0]].  [which] is what
    [shutil.which] returns; on an empty [cmd] the store into
    [popen_cmd[0]] raises [IndexError], which is [None] here. *)
Definition popen_cmd (which : option string) (cmd : list string)
  : option (list string) :=
  match cmd with
  | [] => None
  | first :: rest =>
      let gemini_path :=
        match which with
        | Some path => if is_empty path then first else path
        | None => first
        end in
      Some (gemini_path :: rest)
  end.

(** ** The vocabulary of the statements *)

(** The reader goes on to the next [readline] after this event: it read a
    line, and dropped it on a full queue or enqueued it and found, without
    an exception, that it is no sentinel. *)
Definition keeps_reading (e : pipe_event) : bool :=
  match e with
  | Line raw queue_full =>
      negb (is_empty raw)
      && (queue_full
          || match is_turn_completed (strip raw) with
             | inr false => true
             | _ => false
             end)
  | ReadError => false
  end.

(** The calls made for lines the reader goes past. *)
Fixpoint relayed (pipe : list pipe_event) : list relay_call :=
  match pipe with
  | [] => []
  | Line raw queue_full :: rest =>
      Readline (Some raw) :: Put (Some (strip raw)) (Some 1%Q) queue_full
      :: relayed rest
  | ReadError :: rest => relayed rest
  end.



(** What the calls of the reader are given as a bound. *)
Definition relay_bounds (c : relay_call) : Prop :=
  match c with
  | Put (Some _) timeout _ => timeout = Some 1%Q
  | Put None timeout _ => timeout = None
  | Sleep seconds => seconds = GRACEFUL_SHUTDOWN_DELAY
  | _ => True
  end.

(** What the calls of the generator are given as a bound. *)
Definition shell_bounds (e : gen_event) : Prop :=
  match e with
  | Call (Get timeout _) => timeout = (1 # 2)%Q
  | Call (Wait timeout _) => timeout = 5%Q \/ timeout = 2%Q
  | Call (Join timeout) => timeout = 5%Q
  | _ => True
  end.

(** Every [put] of a trace was called with a timeout. *)
Definition every_put_bounded (trace : list relay_call) : bool :=
  forallb (fun c => match c with
                    | Put _ None _ => false
                    | _ => true
                    end) trace.

(** The lines a run of the generator yields, in order. *)
Fixpoint yielded (events : list gen_event) : list string :=
  match events with
  | [] => []
  | Yield line :: rest => line :: yielded rest
  | Call _ :: rest => yielded rest
  end.

(** The calls of a run of the generator, in order. *)
Fixpoint called (events : list gen_event) : list shell_call :=
  match events with
  | [] => []
  | Call c :: rest => c :: called rest
  | Yield _ :: rest => called rest
  end.

(** [json.loads(line.strip())] *)
Definition decode (line : string) : loads_result := json_loads (strip line).

(** [json.loads] raises [json.JSONDecodeError] on the line. *)
Definition malformed (line : string) : bool :=
  match decode line with
  | DecodeError => true
  | _ => false
  end.

(** The events [json.loads] returns for the lines that decode. *)
Fixpoint decoded (lines : list string) : list json :=
  match lines with
  | [] => []
  | line :: rest =>
      match decode line with
      | Loaded v => v :: decoded rest
      | _ => decoded rest
      end
  end.

(** The text of an assistant-role message event. *)
Definition assistant_content (line : string) : option string :=
  match decode line with
  | Loaded (JObj d) =>
      if is_assistant_message d then
        match dict_get d "content" (JStr "") with
        | JStr c => Some c
        | _ => None
        end
      else None
  | _ => None
  end.

(** The lines the stream claims speak of: a malformed line, an event object
    that is not an assistant message, or an assistant message whose content
    is text. *)
Definition stream_line (line : string) : bool :=
  match decode line with
  | DecodeError => true
  | Loaded (JObj d) =>
      if is_assistant_message d then
        match dict_get d "content" (JStr "") with
        | JStr _ => true
        | _ => false
        end
      else true
  | Loaded _ => false
  | LoadsRaises _ => false
  end.

(** The contents [c1..cn] of the assistant messages among [lines]. *)
Fixpoint contents (lines : list string) : list string :=
  match lines with
  | [] => []
  | line :: rest =>
      match assistant_content line with
      | Some c => c :: contents rest
      | None => contents rest
      end
  end.

(** The concatenation of a list of texts. *)
Fixpoint concat_all (texts : list string) : string :=
  match texts with
  | [] => ""
  | t :: rest => t ++ concat_all rest
  end.

(** The [session_id] an event line bears, [JNull] when it bears none. *)
Definition session_of (line : string) : json :=
  match decode line with
  | Loaded (JObj d) => dict_get d "session_id" JNull
  | _ => JNull
  end.

(** An assistant message whose text holds the deprecation notice. *)
Definition is_notice (line : string) : bool :=
  match assistant_content line with
  | Some c => contains DEPRECATION_NOTICE c
  | None => false
  end.

(** The last non-null [session_id] among the lines that are not notices,
    [start] when there is none. *)
Fixpoint last_session (lines : list string) (start : json) : json :=
  match lines with
  | [] => start
  | line :: rest =>
      last_session rest
        (if is_notice line || is_None (session_of line) then start
         else session_of line)
  end.

(** The entry the decode-error handler writes for a line. *)
Definition decode_entry (line : string) : string :=
  LF ++ "[json decode error] " ++ slice_to 200 line.

(** The error text after the decode-error handler has seen [lines], from
    the text [err]. *)
Fixpoint logged (lines : list string) (err : string) : string :=
  match lines with
  | [] => err
  | line :: rest =>
      logged rest
        (if malformed line && (String.length err <? 2000)%nat
         then err ++ decode_entry line else err)
  end.

(** The texts among [cs] that do not hold the deprecation notice. *)
Definition kept (cs : list string) : list string :=
  filter (fun c => negb (contains DEPRECATION_NOTICE c)) cs.

(** The texts among [cs] that are not the deprecation notice itself. *)
Definition kept_exact (cs : list string) : list string :=
  filter (fun c => negb (String.eqb c DEPRECATION_NOTICE)) cs.

(** The processing of the line raises something else than a decode error:
    the flow of [process_line] from any state. *)
Definition raises (line : string) : bool :=
  match snd (process_line initial line) with
  | Break => true
  | Continue => false
  end.

(** The polling loop goes on to its next turn after this one. *)
Definition keeps_polling (timeout : Z) (turn : poll) : bool :=
  Qle_bool (elapsed turn) (inject_Z timeout)
  && match got turn with
     | Got (Some _) => true
     | Got None => false
     | Empty exited thread_alive => negb (exited && negb thread_alive)
     end.

(** What the generator does in turns it goes past. *)
Fixpoint polled (turns : list poll) : list gen_event :=
  match turns with
  | [] => []
  | turn :: rest =>
      Call (Get (1 # 2)%Q (got turn))
      :: match got turn with
         | Got (Some line) => Yield line :: polled rest
         | _ => polled rest
         end
  end.

(** [gemini] returns from its [except GeminiTimeoutError] handler. *)
Definition timed_out (env : gemini_env) (args : gemini_args) : bool :=
  cd_exists env
  && fst (check_gemini_auth (auth_probe env))
  && let (events, fin) := run_shell_command (timeout args) (shell env) in
     match exit (for_loop events fin initial) with
     | TimedOut _ => true
     | _ => false
     end.

(** How many calls of a trace satisfy [p]. *)
Definition count_calls (p : relay_call -> bool) (trace : list relay_call) : nat :=
  List.length (filter p trace).

Definition is_close (c : relay_call) : bool :=
  match c with
  | CloseStdout => true
  | _ => false
  end.

Definition is_terminate (c : relay_call) : bool :=
  match c with
  | Terminate => true
  | _ => false
  end.

(** A line the reader enqueues is already stripped, so that the consumer's
    [json.loads(line.strip())] decodes the text the reader looked at. *)
Definition put_is_stripped (c : relay_call) : Prop :=
  match c with
  | Put (Some line) _ _ => strip line = line /\ decode line = json_loads line
  | _ => True
  end.

(** The polling loop finds the elapsed time above the timeout. *)
Definition is_late (timeout : Z) (turn : poll) : bool :=
  negb (Qle_bool (elapsed turn) (inject_Z timeout)).

(** The polling loop is left, in time, by this turn: it gets the marker, or
    nothing while the process has exited and the reader is dead. *)
Definition ends_loop (timeout : Z) (turn : poll) : bool :=
  Qle_bool (elapsed turn) (inject_Z timeout)
  && match got turn with
     | Got (Some _) => false
     | Got None => true
     | Empty exited thread_alive => exited && negb thread_alive
     end.

(** The lines the turns get. *)
Fixpoint got_lines (turns : list poll) : list string :=
  match turns with
  | [] => []
  | turn :: rest =>
      match got turn with
      | Got (Some line) => line :: got_lines rest
      | _ => got_lines rest
      end
  end.

(** The lines among queue items. *)
Fixpoint lines_of (items : list (option string)) : list string :=
  match items with
  | [] => []
  | Some line :: rest => line :: lines_of rest
  | None :: rest => lines_of rest
  end.

(** A [get] of the polling loop or a [yield]. *)
Definition is_polling_event (e : gen_event) : bool :=
  match e with
  | Call (Get _ _) => true
  | Yield _ => true
  | _ => false
  end.

(** The two forms of a result dict. *)
Definition is_success (result : dict) : Prop :=
  dict_get result "success" JNull = JBool true
  /\ is_None (dict_get result "SESSION_ID" JNull) = false
  /\ (exists reply,
         dict_get result "agent_messages" JNull = JStr reply /\ reply <> "")
  /\ dict_has result "error" = false.

Definition is_failure (result : dict) : Prop :=
  dict_get result "success" JNull = JBool false
  /\ (exists e, dict_get result "error" JNull = JStr e)
  /\ dict_has result "SESSION_ID" = false
  /\ dict_has result "agent_messages" = false.

(** ** The reader thread *)

Lemma read_loop_app (pre rest : list pipe_event) :
  forallb keeps_reading pre = true ->
  read_loop (pre ++ rest)%list
  = ((relayed pre ++ fst (read_loop rest))%list,
     snd (read_loop rest)).
Proof.
  induction pre as [|e pre IH]; intros Hpre.
  - simpl. now destruct (read_loop rest).
  - simpl in Hpre. apply andb_true_iff in Hpre as [He Hpre].
    destruct e as [raw full|]; [|discriminate].
    simpl in He. apply andb_true_iff in He as [Hraw Hgo].
    apply negb_true_iff in Hraw.
    simpl. rewrite Hraw, (IH Hpre).
    destruct full; [reflexivity|].
    simpl in Hgo.
    destruct (is_turn_completed (strip raw)) as [error|[|]];
      [discriminate|discriminate|reflexivity].
Qed.

Lemma read_loop_sentinel (raw : string) (rest : list pipe_event) :
  is_empty raw = false ->
  is_turn_completed (strip raw) = inr true ->
  read_loop (Line raw false :: rest)
  = ([Readline (Some raw); Put (Some (strip raw)) (Some 1%Q) false;
      Sleep GRACEFUL_SHUTDOWN_DELAY; Terminate], SentinelSeen).
Proof.
  intros Hraw Hdone. simpl. now rewrite Hraw, Hdone.
Qed.



(** Goes through a [Forall] over an explicit list of calls. *)
Ltac each_call :=
  repeat first [apply Forall_nil | apply Forall_cons]; simpl; auto.

Lemma read_loop_bounds (pipe : list pipe_event) :
  Forall relay_bounds (fst (read_loop pipe)).
Proof.
  induction pipe as [|e pipe IH]; [each_call|].
  destruct e as [raw full|]; [|each_call].
  simpl. destruct (is_empty raw); [each_call|].
  assert (Hnext :
    Forall relay_bounds
      (fst (let (trace, why) := read_loop pipe in
            (Readline (Some raw)
             :: Put (Some (strip raw)) (Some 1%Q) full :: trace, why)))).
  { destruct (read_loop pipe). simpl in *. each_call. }
  destruct full; [exact Hnext|].
  destruct (is_turn_completed (strip raw)) as [error|[|]];
    [each_call|each_call|exact Hnext].
Qed.

Lemma drain_bounds (items : list (option string)) :
  Forall shell_bounds (drain items).
Proof.
  induction items as [|[line|] items IH]; simpl; each_call.
Qed.

Lemma cleanup_bounds (env : shell_env) : Forall shell_bounds (cleanup env).
Proof.
  unfold cleanup. apply Forall_cons; [simpl; auto|].
  apply Forall_app. split.
  - destruct (wait5_expired env); each_call.
  - apply Forall_cons; [reflexivity|apply drain_bounds].
Qed.

Lemma poll_loop_bounds (timeout : Z) (env : shell_env) (turns : list poll) :
  Forall shell_bounds (fst (poll_loop timeout env turns)).
Proof.
  induction turns as [|turn turns IH]; [constructor|].
  simpl. destruct (negb (Qle_bool (elapsed turn) (inject_Z timeout))).
  - each_call.
  - destruct (got turn) as [[line|]|exited alive].
    + destruct (poll_loop timeout env turns). simpl in *. each_call.
    + simpl. apply Forall_cons; [reflexivity|apply cleanup_bounds].
    + destruct (exited && negb alive).
      * simpl. apply Forall_cons; [reflexivity|apply cleanup_bounds].
      * destruct (poll_loop timeout env turns). simpl in *. each_call.
Qed.

(** C1 (as amended).  A line the reader has read and enqueued, whose JSON
    decoding is an object with ["type"] equal to ["turn.completed"], is
    followed by the sleep of the grace interval, [terminate()], the closing
    of the stream and the end-of-stream marker, and by no other [readline],
    whatever the pipe still holds. *)
Theorem sentinel_enqueued_stops_reader (pre rest : list pipe_event) (raw : string) :
  forallb keeps_reading pre = true ->
  is_empty raw = false ->
  is_turn_completed (strip raw) = inr true ->
  read_output (pre ++ Line raw false :: rest)%list
  = ((relayed pre
      ++ [Readline (Some raw); Put (Some (strip raw)) (Some 1%Q) false;
          Sleep GRACEFUL_SHUTDOWN_DELAY; Terminate;
          CloseStdout; Put None None false])%list,
     SentinelSeen).
Proof.
  intros Hpre Hraw Hdone. unfold read_output.
  rewrite (read_loop_app _ _ Hpre), (read_loop_sentinel _ _ Hraw Hdone).
  simpl. now rewrite <- app_assoc.
Qed.



(** C8 (as amended).  Every [put] of a line is called with a timeout of one
    second, every [get] of the polling loop with a timeout of half a second,
    every [wait] with five or two seconds and the [join] with five; the
    [put] of the end-of-stream marker is called with no timeout. *)
Theorem channel_calls_bounded_but_marker
  (pipe : list pipe_event) (timeout : Z) (env : shell_env) :
  Forall relay_bounds (fst (read_output pipe))
  /\ Forall shell_bounds (fst (run_shell_command timeout env)).
Proof.
  split.
  - pose proof (read_loop_bounds pipe) as Hb. unfold read_output.
    destruct (read_loop pipe) as [trace why]. simpl in Hb.
    destruct why; simpl; apply Forall_app; split; trivial; each_call.
  - apply poll_loop_bounds.
Qed.

(** ** Strings *)

Lemma append_nil_r (s : string) : s ++ "" = s.
Proof. induction s as [|c s IH]; simpl; [reflexivity|now rewrite IH]. Qed.

Lemma append_assoc (a b c : string) : (a ++ b) ++ c = a ++ b ++ c.
Proof. induction a as [|x a IH]; simpl; [reflexivity|now rewrite IH]. Qed.

Lemma length_append (a b : string) :
  String.length (a ++ b) = String.length a + String.length b.
Proof. induction a as [|x a IH]; simpl; [reflexivity|now rewrite IH]. Qed.

Lemma slice_to_length (n : nat) (s : string) : String.length (slice_to n s) <= n.
Proof.
  revert s. induction n as [|n IH]; intros [|c s]; simpl; try lia.
  specialize (IH s). lia.
Qed.

Lemma prefix_append (p s : string) : String.prefix p (p ++ s) = true.
Proof.
  induction p as [|c p IH]; simpl; [now destruct s|].
  destruct (ascii_dec c c) as [_|Hc]; [exact IH|now elim Hc].
Qed.

Lemma contains_prefix (needle hay : string) :
  String.prefix needle hay = true -> contains needle hay = true.
Proof. destruct hay; simpl; intros ->; reflexivity. Qed.

Lemma contains_append (needle before after : string) :
  contains needle (before ++ needle ++ after) = true.
Proof.
  induction before as [|c before IH].
  - change (contains needle (needle ++ after) = true).
    apply contains_prefix, prefix_append.
  - change (contains needle (String c (before ++ needle ++ after)) = true).
    simpl. rewrite IH. apply orb_true_r.
Qed.

Lemma decode_entry_length (line : string) :
  String.length (decode_entry line) <= 221.
Proof.
  unfold decode_entry, LF. rewrite !length_append.
  pose proof (slice_to_length 200 line).
  change (String.length (String (ascii_of_nat 10) "")) with 1.
  change (String.length "[json decode error] ") with 20.
  lia.
Qed.

(** ** The consumer *)

(** Case analysis on every test the body of the loop makes. *)
Ltac each_branch :=
  repeat match goal with
         | |- context [match ?x with _ => _ end] => destruct x eqn:?
         end;
  simpl in *; try congruence; auto.

Lemma handle_event_log (v : json) (st : aggregate) :
  all_messages (fst (handle_event v st)) = (all_messages st ++ [v])%list
  /\ err_message (fst (handle_event v st)) = err_message st.
Proof. unfold handle_event, track_session. each_branch. Qed.

Lemma handle_event_raises (v : json) (st : aggregate) :
  snd (handle_event v st) = snd (handle_event v initial).
Proof. unfold handle_event, track_session. each_branch. Qed.

Lemma process_line_flow (st : aggregate) (line : string) :
  snd (process_line st line) = snd (process_line initial line).
Proof.
  unfold process_line.
  destruct (json_loads (strip line)) as [v| |error]; [|reflexivity|reflexivity].
  pose proof (handle_event_raises v st) as H.
  destruct (handle_event v st) as [st1 [e1|]],
           (handle_event v initial) as [st2 [e2|]]; simpl in *; congruence.
Qed.

Lemma process_line_quiet (st : aggregate) (line : string) :
  raises line = false ->
  snd (process_line st line) = Continue
  /\ all_messages (fst (process_line st line))
     = (all_messages st ++ decoded [line])%list
  /\ err_message (fst (process_line st line)) = logged [line] (err_message st).
Proof.
  unfold raises. rewrite <- (process_line_flow st).
  unfold process_line, decoded, logged, malformed, decode.
  destruct (json_loads (strip line)) as [v| |error].
  - pose proof (handle_event_log v st) as [Hall Herr].
    destruct (handle_event v st) as [st1 [e|]]; simpl in *; [discriminate|].
    auto.
  - intros _. simpl.
    destruct (String.length (err_message st) <? 2000)%nat; simpl;
      now rewrite app_nil_r.
  - discriminate.
Qed.

Lemma process_line_stream (st : aggregate) (line : string) :
  stream_line line = true ->
  raises line = false
  /\ agent_messages (fst (process_line st line))
     = agent_messages st ++ concat_all (kept (contents [line]))
  /\ thread_id (fst (process_line st line))
     = last_session [line] (thread_id st).
Proof.
  unfold stream_line, raises, contents, kept, last_session, is_notice,
    session_of, assistant_content, process_line, decode.
  destruct (json_loads (strip line)) as [v| |error]; [| |discriminate].
  - destruct v as [| | | | |items|d]; try discriminate.
    unfold handle_event, track_session.
    destruct (is_assistant_message d).
    + destruct (dict_get d "content" (JStr "")) as [| | | |c| |];
        try discriminate.
      intros _. simpl.
      destruct (contains DEPRECATION_NOTICE c); simpl.
      * now rewrite append_nil_r.
      * rewrite append_nil_r.
        destruct (is_None (dict_get d "session_id" JNull)); simpl; auto.
    + intros _. simpl. rewrite append_nil_r.
      destruct (is_None (dict_get d "session_id" JNull)); simpl; auto.
  - intros _. simpl. rewrite append_nil_r.
    destruct (String.length (err_message st) <? 2000)%nat,
             (String.length (err_message initial) <? 2000)%nat; simpl; auto.
Qed.

Lemma decoded_cons (line : string) (lines : list string) :
  decoded (line :: lines) = (decoded [line] ++ decoded lines)%list.
Proof. simpl. now destruct (decode line). Qed.

Lemma contents_cons (line : string) (lines : list string) :
  contents (line :: lines) = (contents [line] ++ contents lines)%list.
Proof. simpl. now destruct (assistant_content line). Qed.

Lemma concat_all_app (a b : list string) :
  concat_all (a ++ b) = concat_all a ++ concat_all b.
Proof.
  induction a as [|x a IH]; simpl; [reflexivity|].
  now rewrite IH, append_assoc.
Qed.

(** A run over lines that raise nothing is not left by [break]; it records
    every decoded event and what the decode-error handler writes. *)
Lemma for_loop_quiet (events : list gen_event) (fin : gen_end) :
  forall st,
    existsb raises (yielded events) = false ->
    let r := for_loop events fin st in
    exit r = exit_of fin
    /\ calls r = called events
    /\ all_messages (final r)
       = (all_messages st ++ decoded (yielded events))%list
    /\ err_message (final r) = logged (yielded events) (err_message st).
Proof.
  induction events as [|[c|line] events IH]; intros st Hq.
  - simpl. rewrite app_nil_r. auto.
  - simpl in *. destruct (IH st Hq) as (He & Hc & Ha & Hl).
    rewrite Hc. auto.
  - simpl in Hq. apply orb_false_iff in Hq as [Hline Hq].
    destruct (process_line_quiet st line Hline) as (Hflow & Hall & Herr).
    cbn [for_loop yielded].
    destruct (process_line st line) as [st' flow].
    cbn [fst snd] in Hflow, Hall, Herr. subst flow.
    destruct (IH st' Hq) as (He & Hc & Ha & Hl).
    rewrite decoded_cons, app_assoc, <- Hall.
    change (logged (line :: yielded events) (err_message st))
      with (logged (yielded events) (logged [line] (err_message st))).
    rewrite <- Herr. auto.
Qed.

Lemma kept_contents_cons (line : string) (lines : list string) :
  kept (contents (line :: lines))
  = (kept (contents [line]) ++ kept (contents lines))%list.
Proof. unfold kept. now rewrite contents_cons, filter_app. Qed.

(** Over stream lines the run concatenates the kept contents and tracks the
    session identifier of the lines that are not notices. *)
Lemma for_loop_stream (events : list gen_event) (fin : gen_end) :
  forall st,
    forallb stream_line (yielded events) = true ->
    let r := for_loop events fin st in
    existsb raises (yielded events) = false
    /\ agent_messages (final r)
       = agent_messages st ++ concat_all (kept (contents (yielded events)))
    /\ thread_id (final r) = last_session (yielded events) (thread_id st).
Proof.
  induction events as [|[c|line] events IH]; intros st Hs.
  - simpl. now rewrite append_nil_r.
  - simpl in *. exact (IH st Hs).
  - simpl in Hs. apply andb_true_iff in Hs as [Hline Hs].
    destruct (process_line_stream st line Hline) as (Hq & Hagent & Hsession).
    destruct (process_line_quiet st line Hq) as (Hflow & _).
    cbn [for_loop yielded existsb].
    destruct (process_line st line) as [st' flow].
    cbn [fst snd] in Hflow, Hagent, Hsession. subst flow.
    destruct (IH st' Hs) as (Hq' & Ha & Ht).
    rewrite (kept_contents_cons line (yielded events)), concat_all_app.
    rewrite Hq, Hq', Ha, Ht, Hagent, Hsession, append_assoc.
    repeat split; reflexivity.
Qed.

Lemma last_session_app (a b : list string) (start : json) :
  last_session (a ++ b) start = last_session b (last_session a start).
Proof.
  revert start. induction a as [|x a IH]; intros start; simpl; [reflexivity|].
  apply IH.
Qed.

Lemma last_session_none (lines : list string) (start : json) :
  forallb (fun l => is_None (session_of l)) lines = true ->
  last_session lines start = start.
Proof.
  revert start. induction lines as [|x lines IH]; intros start H; simpl in *;
    [reflexivity|].
  apply andb_true_iff in H as [Hx H]. rewrite Hx, orb_true_r. now apply IH.
Qed.

Lemma logged_full (lines : list string) (err : string) :
  2000 <= String.length err -> logged lines err = err.
Proof.
  induction lines as [|line lines IH]; intros H; simpl; [reflexivity|].
  apply Nat.ltb_ge in H as Hlt. rewrite Hlt, andb_false_r. now apply IH.
Qed.

Lemma logged_length (lines : list string) :
  forall err, String.length err <= 2220 ->
              String.length (logged lines err) <= 2220.
Proof.
  induction lines as [|line lines IH]; intros err H; simpl; [exact H|].
  apply IH. destruct (malformed line); simpl; [|exact H].
  destruct (String.length err <? 2000)%nat eqn:Hlt; [|exact H].
  apply Nat.ltb_lt in Hlt. rewrite length_append.
  pose proof (decode_entry_length line). lia.
Qed.

Lemma slice_to_prefix (n : nat) (s : string) :
  exists rest, s = slice_to n s ++ rest.
Proof.
  revert s. induction n as [|n IH]; intros [|c s]; simpl;
    try (eexists; reflexivity).
  destruct (IH s) as (rest & Hrest). exists rest. now rewrite <- Hrest.
Qed.

(** The handler writes entries for a first part of the malformed lines:
    each one is written on a text shorter than 2000 characters, and the
    rest is left out only once the text has reached 2000 characters. *)
Lemma logged_entries (lines : list string) :
  forall err,
  exists k,
    k <= List.length (filter malformed lines)
    /\ logged lines err
       = err ++ concat_all (map decode_entry (firstn k (filter malformed lines)))
    /\ (forall j,
           j < k ->
           String.length
             (err ++ concat_all
                       (map decode_entry (firstn j (filter malformed lines))))
           < 2000)
    /\ (k < List.length (filter malformed lines) ->
        2000 <= String.length (logged lines err)).
Proof.
  induction lines as [|line lines IH]; intros err.
  - exists 0. simpl. rewrite append_nil_r. repeat split; lia.
  - simpl. destruct (malformed line); simpl; [|apply IH].
    destruct (String.length err <? 2000)%nat eqn:Hlt.
    + destruct (IH (err ++ decode_entry line))
        as (k & Hk & Hlog & Hbelow & Hcap).
      apply Nat.ltb_lt in Hlt.
      exists (S k). split; [simpl; lia|]. split; [|split].
      * rewrite Hlog. simpl. now rewrite append_assoc.
      * intros [|j] Hj; cbn [firstn map concat_all].
        -- now rewrite append_nil_r.
        -- rewrite <- append_assoc. apply Hbelow. lia.
      * intros H. apply Hcap. simpl in H. lia.
    + apply Nat.ltb_ge in Hlt. exists 0. simpl.
      rewrite (logged_full _ _ Hlt), append_nil_r. repeat split; lia.
Qed.

Lemma handle_event_raised (v : json) (st : aggregate) (error : py_error) :
  snd (handle_event v st) = Some error ->
  fst (handle_event v st)
  = {| all_messages := (all_messages st ++ [v])%list;
       agent_messages := agent_messages st;
       err_message := err_message st;
       thread_id := thread_id st |}.
Proof. unfold handle_event, track_session. each_branch. Qed.

(** C4 (as amended).  Over consumed lines that are malformed, events that
    are not assistant messages, or assistant messages with contents
    [c1..cn], [agent_messages] is the concatenation, in arrival order, of
    the [ci] that do not hold the deprecation notice as a substring. *)
Theorem agent_text_is_kept_contents (events : list gen_event) (fin : gen_end) :
  forallb stream_line (yielded events) = true ->
  agent_messages (final (for_loop events fin initial))
  = concat_all (kept (contents (yielded events))).
Proof.
  intros Hs. now destruct (for_loop_stream events fin initial Hs) as (_ & Ha & _).
Qed.

(** X18.  Over consumed lines that are malformed or events, when the last
    line that bears a non-null [session_id] is not an assistant message
    skipped as a deprecation notice, the tracked session identifier is the
    one of that line, whatever the lines before it bear: later lines without
    one do not overwrite it. *)
Theorem last_session_id_wins
  (events : list gen_event) (fin : gen_end)
  (before after : list string) (line : string) :
  yielded events = (before ++ line :: after)%list ->
  forallb stream_line (yielded events) = true ->
  is_notice line = false ->
  is_None (session_of line) = false ->
  forallb (fun l => is_None (session_of l)) after = true ->
  thread_id (final (for_loop events fin initial)) = session_of line.
Proof.
  intros Hlines Hs Hnotice Hline Hafter.
  destruct (for_loop_stream events fin initial Hs) as (_ & _ & Ht).
  rewrite Ht, Hlines, last_session_app. simpl.
  rewrite Hnotice, Hline. simpl. now apply last_session_none.
Qed.

(** C7 (as amended).  Over consumed lines none of which raises an unexpected
    error, [all_messages] holds exactly the decoded events, in order.  The
    error text is made of one entry for each of the first [k] malformed
    lines and of nothing else; every one of these entries was written on a
    text shorter than 2000 characters, and a malformed line has no entry
    only when the text has reached 2000 characters, which fixes [k].  The
    snippet of an entry is the start of its line, of at most 200 characters,
    and the text is never longer than 2220 characters. *)
Theorem decode_errors_logged_until_cap (events : list gen_event) (fin : gen_end) :
  existsb raises (yielded events) = false ->
  let r := for_loop events fin initial in
  let bad := filter malformed (yielded events) in
  all_messages (final r) = decoded (yielded events)
  /\ (exists k,
         k <= List.length bad
         /\ err_message (final r)
            = concat_all (map decode_entry (firstn k bad))
         /\ (forall j,
                j < k ->
                String.length (concat_all (map decode_entry (firstn j bad)))
                < 2000)
         /\ (k < List.length bad ->
             2000 <= String.length (err_message (final r))))
  /\ Forall (fun line =>
               String.length (slice_to 200 line) <= 200
               /\ exists rest, line = slice_to 200 line ++ rest) bad
  /\ String.length (err_message (final r)) <= 2220.
Proof.
  intros Hq r bad.
  destruct (for_loop_quiet events fin initial Hq) as (_ & _ & Hall & Herr).
  fold r in Hall, Herr. rewrite Hall, Herr.
  change (err_message initial) with "".
  split; [reflexivity|]. split; [|split].
  - destruct (logged_entries (yielded events) "")
      as (k & Hk & Hlog & Hbelow & Hcap).
    exists k. auto.
  - apply Forall_forall. intros line _.
    split; [apply slice_to_length|apply slice_to_prefix].
  - apply logged_length. simpl. lia.
Qed.

(** C9.  When the processing of a line that decodes raises something else
    than a decode error, the consumer appends an [[unexpected error]] entry
    to the error text, however long the text already is, and leaves the
    loop: the state it ends in and the calls it makes do not depend on what
    the generator would have done next. *)
Theorem unexpected_error_ends_consumption
  (st : aggregate) (line : string) (line_dict : json) (error : py_error)
  (rest : list gen_event) (fin : gen_end) :
  json_loads (strip line) = Loaded line_dict ->
  snd (handle_event line_dict st) = Some error ->
  for_loop (Yield line :: rest) fin st
  = {| final :=
         {| all_messages := (all_messages st ++ [line_dict])%list;
            agent_messages := agent_messages st;
            err_message := err_message st ++ LF ++ "[unexpected error] "
                           ++ str_of_error error;
            thread_id := thread_id st |};
       calls := [];
       exit := Broke |}.
Proof.
  intros Hdecode Hraise. pose proof (handle_event_raised _ _ _ Hraise) as Hst.
  simpl. unfold process_line. rewrite Hdecode.
  destruct (handle_event line_dict st) as [st' e]. simpl in Hraise, Hst.
  subst e st'. reflexivity.
Qed.

(** ** The generator and the result of [gemini] *)

Lemma poll_loop_app (timeout : Z) (env : shell_env) (before rest : list poll) :
  forallb (keeps_polling timeout) before = true ->
  poll_loop timeout env (before ++ rest)%list
  = ((polled before ++ fst (poll_loop timeout env rest))%list,
     snd (poll_loop timeout env rest)).
Proof.
  induction before as [|turn before IH]; intros Hb.
  - simpl. now destruct (poll_loop timeout env rest).
  - simpl in Hb. apply andb_true_iff in Hb as [Hturn Hb].
    unfold keeps_polling in Hturn. apply andb_true_iff in Hturn as [Hle Hgo].
    simpl. rewrite Hle, (IH Hb). simpl.
    destruct (got turn) as [[line|]|exited alive]; try discriminate.
    + reflexivity.
    + apply negb_true_iff in Hgo. now rewrite Hgo.
Qed.

Lemma poll_loop_late (timeout : Z) (env : shell_env)
  (turn : poll) (after : list poll) :
  (inject_Z timeout < elapsed turn)%Q ->
  poll_loop timeout env (turn :: after)
  = ([Call Kill; Call (Wait 2%Q (wait2_expired env))],
     RaiseTimeout (timeout_message timeout)).
Proof.
  intros Hlate. simpl.
  destruct (Qle_bool (elapsed turn) (inject_Z timeout)) eqn:Hle; [|reflexivity].
  apply Qle_bool_iff in Hle. now apply Qlt_not_le in Hlate.
Qed.

Lemma yielded_app (a b : list gen_event) :
  yielded (a ++ b) = (yielded a ++ yielded b)%list.
Proof.
  induction a as [|[c|line] a IH]; simpl; [reflexivity|exact IH|now rewrite IH].
Qed.

Lemma called_app (a b : list gen_event) :
  called (a ++ b) = (called a ++ called b)%list.
Proof.
  induction a as [|[c|line] a IH]; simpl; [reflexivity|now rewrite IH|exact IH].
Qed.

Lemma lstrip_append (p s : string) :
  lstrip p = p -> is_empty p = false -> lstrip (p ++ s) = p ++ s.
Proof.
  destruct p as [|c p]; [discriminate|]. simpl.
  destruct (is_space c) eqn:Hc; [|reflexivity].
  intros H _. exfalso.
  assert (Hlen : forall t, String.length (lstrip t) <= String.length t).
  { induction t as [|x t IHt]; simpl; [lia|]. destruct (is_space x); simpl; lia. }
  specialize (Hlen p). rewrite H in Hlen. simpl in Hlen. lia.
Qed.

Lemma rstrip_cons (c : ascii) (s : string) :
  rstrip (String c s)
  = if is_space c && is_empty (rstrip s) then "" else String c (rstrip s).
Proof. reflexivity. Qed.

Lemma rstrip_append (p s : string) :
  rstrip p = p -> is_empty p = false -> rstrip (p ++ s) = p ++ rstrip s.
Proof.
  induction p as [|c p IH]; [discriminate|]. intros Hp _.
  rewrite rstrip_cons in Hp.
  destruct (is_space c && is_empty (rstrip p)) eqn:Hc; [discriminate|].
  injection Hp as Hp. rewrite Hp in Hc.
  change (String c p ++ s) with (String c (p ++ s)).
  change (String c p ++ rstrip s) with (String c (p ++ rstrip s)).
  rewrite rstrip_cons.
  destruct p as [|c' p'].
  - change ("" ++ s) with s. change ("" ++ rstrip s) with (rstrip s).
    simpl in Hc. rewrite andb_true_r in Hc. now rewrite Hc.
  - rewrite (IH Hp eq_refl). simpl. now rewrite andb_false_r.
Qed.

(** A text that neither starts nor ends with a space survives [strip] at
    the head of a longer text. *)
Lemma strip_append (p s : string) :
  lstrip p = p -> rstrip p = p -> is_empty p = false ->
  strip (p ++ s) = p ++ rstrip s.
Proof.
  intros Hl Hr He. unfold strip.
  now rewrite (lstrip_append _ _ Hl He), (rstrip_append _ _ Hr He).
Qed.

(** C3.  When a turn of the polling loop finds the elapsed time above the
    configured timeout, the turns before it having gone on polling and the
    lines they yielded having raised nothing, the process is killed and
    [gemini] returns a failure whose error text holds the timeout value,
    with the events decoded so far when the caller asked for them. *)
Theorem timeout_kills_and_fails
  (env : gemini_env) (args : gemini_args)
  (before after : list poll) (turn : poll) :
  cd_exists env = true ->
  fst (check_gemini_auth (auth_probe env)) = true ->
  polls (shell env) = (before ++ turn :: after)%list ->
  forallb (keeps_polling (timeout args)) before = true ->
  existsb raises (yielded (polled before)) = false ->
  (inject_Z (timeout args) < elapsed turn)%Q ->
  gemini env args
  = ((called (polled before)
      ++ [Kill; Wait 2%Q (wait2_expired (shell env))])%list,
     Some [("success", JBool false);
           ("error", JStr (timeout_message (timeout args)));
           ("all_messages",
            if return_all_messages args
            then JArr (decoded (yielded (polled before)))
            else JNull)])
  /\ contains (str_of_int (timeout args)) (timeout_message (timeout args)) = true.
Proof.
  intros Hcd Hauth Hpolls Hbefore Hquiet Hlate. split.
  - unfold gemini, run_shell_command. rewrite Hcd. simpl.
    destruct (check_gemini_auth (auth_probe env)) as [auth_ok auth_msg].
    simpl in Hauth. subst auth_ok. simpl.
    rewrite Hpolls, (poll_loop_app _ _ _ _ Hbefore), (poll_loop_late _ _ _ _ Hlate).
    cbn [fst snd].
    set (events := (polled before
                    ++ [Call Kill; Call (Wait 2%Q (wait2_expired (shell env)))])%list).
    assert (Hy : yielded events = yielded (polled before)).
    { unfold events. rewrite yielded_app. simpl. apply app_nil_r. }
    assert (Hq : existsb raises (yielded events) = false) by now rewrite Hy.
    destruct (for_loop_quiet events (RaiseTimeout (timeout_message (timeout args)))
                initial Hq) as (He & Hc & Ha & _).
    rewrite He, Hc, Ha, Hy. simpl. unfold events. rewrite called_app.
    reflexivity.
  - unfold timeout_message. apply (contains_append _ _ _).
Qed.

(** C6.  When the loop of [gemini] completes, by exhaustion of the generator
    or by [break], the verdict follows this precedence: without a session
    identifier the result is a failure whose error starts with the
    missing-session text, whatever assistant text was gathered; else with no
    assistant text it is a failure whose error starts with the text on a
    possible tool call and a still usable session identifier; else it is a
    success carrying [SESSION_ID] and [agent_messages]. *)
Theorem verdict_precedence (env : gemini_env) (args : gemini_args) :
  cd_exists env = true ->
  fst (check_gemini_auth (auth_probe env)) = true ->
  let r := for_loop (fst (run_shell_command (timeout args) (shell env)))
             (snd (run_shell_command (timeout args) (shell env))) initial in
  exit r = Exhausted \/ exit r = Broke ->
  exists result,
    snd (gemini env args) = Some result
    /\ (is_None (thread_id (final r)) = true ->
        dict_get result "success" JNull = JBool false
        /\ exists rest,
            dict_get result "error" JNull = JStr (NO_SESSION ++ rest))
    /\ (is_None (thread_id (final r)) = false ->
        agent_messages (final r) = "" ->
        dict_get result "success" JNull = JBool false
        /\ exists rest,
            dict_get result "error" JNull = JStr (NO_AGENT_MESSAGES ++ rest))
    /\ (is_None (thread_id (final r)) = false ->
        agent_messages (final r) <> "" ->
        dict_get result "success" JNull = JBool true
        /\ dict_get result "SESSION_ID" JNull = thread_id (final r)
        /\ dict_get result "agent_messages" JNull
           = JStr (agent_messages (final r))
        /\ dict_has result "error" = false).
Proof.
  intros Hcd Hauth r Hexit.
  exists (build_result (final r) (return_all_messages args)). split.
  - unfold gemini. rewrite Hcd. simpl.
    destruct (check_gemini_auth (auth_probe env)) as [auth_ok auth_msg].
    simpl in Hauth. subst auth_ok. simpl. subst r.
    destruct (run_shell_command (timeout args) (shell env)) as [events fin].
    simpl in *. destruct Hexit as [-> | ->]; reflexivity.
  - unfold build_result, validate.
    destruct (is_None (thread_id (final r))) eqn:Hnone.
    + split; [|split; intros; discriminate]. intros _. cbn [andb].
      rewrite (strip_append NO_SESSION _ eq_refl eq_refl eq_refl).
      destruct (return_all_messages args); simpl; eauto.
    + split; [intros; discriminate|]. cbn [andb].
      destruct (agent_messages (final r)) as [|c text] eqn:Hagent.
      * split; [|intros _ H; now elim H]. intros _ _. cbn [String.length Nat.eqb].
        rewrite (strip_append NO_AGENT_MESSAGES _ eq_refl eq_refl eq_refl).
        destruct (return_all_messages args); simpl; eauto.
      * split; [intros; discriminate|]. intros _ _. cbn [String.length Nat.eqb].
        destruct (return_all_messages args); simpl; auto.
Qed.

(** C10.  A result returned on a timeout holds the key [all_messages], with
    value [None] when [return_all_messages] is false; a result returned on
    any other path holds the key only when [return_all_messages] is true:
    never on the missing-directory and failed-probe paths, and exactly when
    the flag is set after the loop completed. *)
Theorem all_messages_key_presence
  (env : gemini_env) (args : gemini_args) (result : dict) :
  snd (gemini env args) = Some result ->
  (timed_out env args = true ->
   dict_has result "all_messages" = true
   /\ (return_all_messages args = false ->
       dict_get result "all_messages" (JStr "absent") = JNull))
  /\ (timed_out env args = false ->
      (dict_has result "all_messages" = true -> return_all_messages args = true)
      /\ (cd_exists env && fst (check_gemini_auth (auth_probe env)) = false ->
          dict_has result "all_messages" = false)
      /\ (cd_exists env && fst (check_gemini_auth (auth_probe env)) = true ->
          dict_has result "all_messages" = return_all_messages args)).
Proof.
  unfold gemini, timed_out.
  destruct (cd_exists env); simpl.
  2:{ intros [= <-]. simpl. repeat split; auto; discriminate. }
  destruct (check_gemini_auth (auth_probe env)) as [auth_ok auth_msg].
  destruct auth_ok; simpl.
  2:{ intros [= <-]. simpl. repeat split; auto; discriminate. }
  destruct (run_shell_command (timeout args) (shell env)) as [events fin].
  destruct (exit (for_loop events fin initial)); simpl; intros [= <-].
  - split; [discriminate|]. intros _. unfold build_result.
    destruct (validate (final (for_loop events fin initial))) as [[|] err],
             (return_all_messages args); simpl; repeat split; auto; discriminate.
  - split; [discriminate|]. intros _. unfold build_result.
    destruct (validate (final (for_loop events fin initial))) as [[|] err],
             (return_all_messages args); simpl; repeat split; auto; discriminate.
  - split; [|discriminate]. intros _. split; [reflexivity|].
    intros ->. reflexivity.
Qed.

(** ** More on the reader thread *)

Lemma rstrip_idempotent (s : string) : rstrip (rstrip s) = rstrip s.
Proof.
  induction s as [|c s IH]; [reflexivity|].
  rewrite rstrip_cons.
  destruct (is_space c && is_empty (rstrip s)) eqn:Hc; [reflexivity|].
  now rewrite rstrip_cons, IH, Hc.
Qed.

Lemma lstrip_idempotent (s : string) : lstrip (lstrip s) = lstrip s.
Proof.
  induction s as [|c s IH]; [reflexivity|].
  simpl. destruct (is_space c) eqn:Hc; [exact IH|].
  simpl. now rewrite Hc.
Qed.

(** Stripping the end of a text leaves a stripped start as it is. *)
Lemma lstrip_rstrip (s : string) : lstrip s = s -> lstrip (rstrip s) = rstrip s.
Proof.
  destruct s as [|c s]; [reflexivity|]. intros Hs.
  assert (Hc : is_space c = false).
  { destruct (is_space c) eqn:Hc; [|reflexivity]. exfalso.
    simpl in Hs. rewrite Hc in Hs.
    assert (Hlen : forall t, String.length (lstrip t) <= String.length t).
    { induction t as [|x t IHt]; simpl; [lia|].
      destruct (is_space x); simpl; lia. }
    specialize (Hlen s). rewrite Hs in Hlen. simpl in Hlen. lia. }
  rewrite rstrip_cons, Hc. simpl. now rewrite Hc.
Qed.

Lemma strip_idempotent (s : string) : strip (strip s) = strip s.
Proof.
  unfold strip.
  now rewrite (lstrip_rstrip _ (lstrip_idempotent s)), rstrip_idempotent.
Qed.

(** What the loop of the reader calls, counted: nothing but reads, puts of
    lines, and the sleep and the [terminate()] of a sentinel exit. *)
Lemma read_loop_count (p : relay_call -> bool) (pipe : list pipe_event) :
  (forall r, p (Readline r) = false) ->
  (forall line t full, p (Put (Some line) t full) = false) ->
  (forall d, p (Sleep d) = false) ->
  count_calls p (fst (read_loop pipe))
  = match snd (read_loop pipe) with
    | SentinelSeen => if p Terminate then 1 else 0
    | _ => 0
    end.
Proof.
  intros Hread Hput Hsleep. unfold count_calls.
  induction pipe as [|e pipe IH].
  - simpl. now rewrite Hread.
  - destruct e as [raw full|]; [|simpl; now rewrite Hread].
    simpl. destruct (is_empty raw); [simpl; now rewrite Hread|].
    assert (Hnext :
      List.length
        (filter p
           (fst (let (trace, why) := read_loop pipe in
                 (Readline (Some raw)
                  :: Put (Some (strip raw)) (Some 1%Q) full :: trace, why))))
      = match snd (let (trace, why) := read_loop pipe in
                   (Readline (Some raw)
                    :: Put (Some (strip raw)) (Some 1%Q) full :: trace, why))
        with
        | SentinelSeen => if p Terminate then 1 else 0
        | _ => 0
        end).
    { destruct (read_loop pipe) as [trace why]. simpl in *.
      now rewrite Hread, Hput. }
    destruct full; [exact Hnext|].
    destruct (is_turn_completed (strip raw)) as [error|[|]];
      [|.. |exact Hnext].
    + simpl. now rewrite Hread, Hput.
    + simpl. rewrite Hread, Hput, Hsleep. now destruct (p Terminate).
Qed.

Lemma read_loop_sentinel_last (pipe : list pipe_event) :
  snd (read_loop pipe) = SentinelSeen ->
  exists before line,
    fst (read_loop pipe)
    = (before ++ [Put (Some line) (Some 1%Q) false;
                  Sleep GRACEFUL_SHUTDOWN_DELAY; Terminate])%list
    /\ is_turn_completed line = inr true.
Proof.
  induction pipe as [|e pipe IH]; [discriminate|].
  destruct e as [raw full|]; [|discriminate].
  simpl. destruct (is_empty raw); [discriminate|].
  assert (Hnext :
    snd (let (trace, why) := read_loop pipe in
         (Readline (Some raw) :: Put (Some (strip raw)) (Some 1%Q) full
          :: trace, why)) = SentinelSeen ->
    exists before line,
      fst (let (trace, why) := read_loop pipe in
           (Readline (Some raw) :: Put (Some (strip raw)) (Some 1%Q) full
            :: trace, why))
      = (before ++ [Put (Some line) (Some 1%Q) false;
                    Sleep GRACEFUL_SHUTDOWN_DELAY; Terminate])%list
      /\ is_turn_completed line = inr true).
  { destruct (read_loop pipe) as [trace why]. simpl in *. intros Hwhy.
    destruct (IH Hwhy) as (before & line & -> & Hline).
    exists (Readline (Some raw) :: Put (Some (strip raw)) (Some 1%Q) full
            :: before), line.
    split; [reflexivity|exact Hline]. }
  destruct full; [exact Hnext|].
  destruct (is_turn_completed (strip raw)) as [error|[|]] eqn:Hdone;
    [discriminate| |exact Hnext].
  intros _. exists [Readline (Some raw)], (strip raw).
  split; [reflexivity|exact Hdone].
Qed.

Lemma read_loop_stripped (pipe : list pipe_event) :
  Forall put_is_stripped (fst (read_loop pipe)).
Proof.
  assert (Hput : forall raw t full,
             put_is_stripped (Put (Some (strip raw)) t full)).
  { intros raw t full. simpl. unfold decode.
    now rewrite strip_idempotent. }
  induction pipe as [|e pipe IH]; [each_call|].
  destruct e as [raw full|]; [|each_call].
  simpl. destruct (is_empty raw); [each_call|].
  assert (Hnext :
    Forall put_is_stripped
      (fst (let (trace, why) := read_loop pipe in
            (Readline (Some raw)
             :: Put (Some (strip raw)) (Some 1%Q) full :: trace, why)))).
  { destruct (read_loop pipe). cbn [fst] in *.
    apply Forall_cons; [exact I|].
    apply Forall_cons; [exact (Hput raw (Some 1%Q) full)|exact IH]. }
  destruct full; [exact Hnext|].
  destruct (is_turn_completed (strip raw)) as [error|[|]]; [| |exact Hnext];
    (apply Forall_cons; [exact I|]);
    (apply Forall_cons; [exact (Hput raw (Some 1%Q) false)|each_call]).
Qed.

(** X1.  Over a pipe where no read raises, no line is empty and the sentinel
    check of every enqueued line returns false, without an exception, the
    reader reads every line and puts it, stripped, in the order read, those
    it drops on a full queue included; it then reads the end of the stream,
    closes it and enqueues the marker. *)
Theorem reader_relays_every_line (pipe : list pipe_event) :
  forallb keeps_reading pipe = true ->
  read_output pipe
  = ((relayed pipe
      ++ [Readline (Some ""); CloseStdout; Put None None false])%list,
     StreamClosed).
Proof.
  intros Hpipe. unfold read_output.
  rewrite <- (app_nil_r pipe) at 1. rewrite (read_loop_app _ _ Hpipe).
  simpl. now rewrite <- app_assoc.
Qed.

(** X2.  Whatever the pipe delivers and however the loop is left, by the end
    of the stream, a sentinel, a raising read or a raising sentinel check,
    the reader closes [process.stdout] exactly once. *)
Theorem reader_closes_stdout_once (pipe : list pipe_event) :
  count_calls is_close (fst (read_output pipe)) = 1.
Proof.
  pose proof (read_loop_count is_close pipe
                (fun _ => eq_refl) (fun _ _ _ => eq_refl) (fun _ => eq_refl))
    as Hcount.
  unfold read_output, count_calls in *.
  destruct (read_loop pipe) as [trace why]. simpl in Hcount.
  destruct why; simpl; rewrite filter_app, length_app, Hcount; reflexivity.
Qed.

(** X3.  The reader calls [terminate()] once when it leaves its loop on a
    sentinel and never otherwise; when it does, the calls before it are the
    successful put of a line that [is_turn_completed] accepts and the sleep
    of the grace interval. *)
Theorem reader_terminates_only_on_sentinel (pipe : list pipe_event) :
  count_calls is_terminate (fst (read_output pipe))
  = match snd (read_output pipe) with
    | SentinelSeen => 1
    | StreamClosed | ReadFailed | CheckFailed => 0
    end
  /\ (snd (read_output pipe) = SentinelSeen ->
      exists before line,
        fst (read_output pipe)
        = (before ++ [Put (Some line) (Some 1%Q) false;
                      Sleep GRACEFUL_SHUTDOWN_DELAY; Terminate;
                      CloseStdout; Put None None false])%list
        /\ is_turn_completed line = inr true).
Proof.
  pose proof (read_loop_count is_terminate pipe
                (fun _ => eq_refl) (fun _ _ _ => eq_refl) (fun _ => eq_refl))
    as Hcount.
  pose proof (read_loop_sentinel_last pipe) as Hlast.
  unfold read_output, count_calls in *.
  destruct (read_loop pipe) as [trace why]. simpl in Hcount, Hlast.
  destruct why; simpl; rewrite filter_app, length_app, Hcount; simpl;
    (split; [reflexivity|]); try discriminate.
  intros _. destruct (Hlast eq_refl) as (before & line & -> & Hline).
  exists before, line. split; [|exact Hline].
  now rewrite <- app_assoc.
Qed.

(** X4.  Every line the reader enqueues is stripped already: the
    [line.strip()] of the consumer changes nothing, and its [json.loads]
    decodes the very text [is_turn_completed] decoded. *)
Theorem enqueued_lines_are_stripped (pipe : list pipe_event) :
  Forall put_is_stripped (fst (read_output pipe)).
Proof.
  pose proof (read_loop_stripped pipe) as Hs. unfold read_output.
  destruct (read_loop pipe) as [trace why]. simpl in Hs.
  destruct why; simpl; apply Forall_app; split; trivial; each_call.
Qed.

(** ** More on the generator *)

Lemma yielded_polled (turns : list poll) : yielded (polled turns) = got_lines turns.
Proof.
  induction turns as [|turn turns IH]; [reflexivity|].
  simpl. destruct (got turn) as [[line|]|exited alive]; simpl; now rewrite IH.
Qed.

Lemma yielded_drain (items : list (option string)) :
  yielded (drain items) = lines_of items.
Proof.
  induction items as [|[line|] items IH]; simpl; [reflexivity| |exact IH].
  now rewrite IH.
Qed.

Lemma yielded_cleanup (env : shell_env) :
  yielded (cleanup env) = lines_of (residue env).
Proof.
  unfold cleanup. simpl. rewrite yielded_app. simpl. rewrite yielded_drain.
  now destruct (wait5_expired env).
Qed.

Lemma poll_loop_end (timeout : Z) (env : shell_env)
  (turn : poll) (after : list poll) :
  ends_loop timeout turn = true ->
  poll_loop timeout env (turn :: after)
  = (Call (Get (1 # 2)%Q (got turn)) :: cleanup env, Return).
Proof.
  unfold ends_loop. intros H. apply andb_true_iff in H as [Hle Hend].
  simpl. rewrite Hle. simpl.
  destruct (got turn) as [[line|]|exited alive]; try discriminate;
    [reflexivity|now rewrite Hend].
Qed.

Lemma poll_loop_polling (timeout : Z) (env : shell_env) (turns : list poll) :
  snd (poll_loop timeout env turns) = Polling
  <-> forallb (keeps_polling timeout) turns = true.
Proof.
  induction turns as [|turn turns IH]; [simpl; tauto|].
  simpl. unfold keeps_polling at 1.
  destruct (Qle_bool (elapsed turn) (inject_Z timeout)); simpl;
    [|split; discriminate].
  destruct (got turn) as [[line|]|exited alive].
  - destruct (poll_loop timeout env turns). exact IH.
  - simpl. split; discriminate.
  - destruct (exited && negb alive); simpl; [split; discriminate|].
    destruct (poll_loop timeout env turns). exact IH.
Qed.

Lemma polling_events_no_kill (events : list gen_event) :
  forallb is_polling_event events = true -> ~ In (Call Kill) events.
Proof.
  intros Hall Hin. rewrite forallb_forall in Hall.
  specialize (Hall _ Hin). discriminate.
Qed.

Lemma drain_no_kill (items : list (option string)) : ~ In (Call Kill) (drain items).
Proof.
  induction items as [|[line|] items IH]; simpl; [tauto| |].
  - intros [H|[H|H]]; [discriminate|discriminate|tauto].
  - intros [H|H]; [discriminate|tauto].
Qed.

Lemma cleanup_kill (env : shell_env) :
  In (Call Kill) (cleanup env) <-> wait5_expired env = true.
Proof.
  unfold cleanup. pose proof (drain_no_kill (residue env)) as Hd.
  destruct (wait5_expired env); simpl.
  - split; auto.
  - split; [|discriminate]. intros [H|[H|H]]; [discriminate|discriminate|tauto].
Qed.

(** What the generator does is a run of gets and yields, followed by what
    its way of ending calls for. *)
Lemma poll_loop_shape (timeout : Z) (env : shell_env) (turns : list poll) :
  exists polling,
    forallb is_polling_event polling = true
    /\ fst (poll_loop timeout env turns)
       = (polling
          ++ match snd (poll_loop timeout env turns) with
             | RaiseTimeout _ =>
                 [Call Kill; Call (Wait 2%Q (wait2_expired env))]
             | Return => cleanup env
             | Polling => []
             end)%list
    /\ (forall message,
           snd (poll_loop timeout env turns) = RaiseTimeout message ->
           message = timeout_message timeout).
Proof.
  induction turns as [|turn turns IH].
  - exists []. simpl. repeat split. discriminate.
  - simpl. destruct (negb (Qle_bool (elapsed turn) (inject_Z timeout))).
    + exists []. simpl. repeat split. now intros message [= <-].
    + destruct IH as (polling & Hp & Hshape & Hmsg).
      destruct (got turn) as [[line|]|exited alive].
      * destruct (poll_loop timeout env turns) as [events fin]. simpl in *.
        exists (Call (Get (1 # 2)%Q (Got (Some line))) :: Yield line :: polling).
        simpl. rewrite Hshape. auto.
      * exists [Call (Get (1 # 2)%Q (Got None))]. simpl.
        repeat split. discriminate.
      * destruct (exited && negb alive).
        -- exists [Call (Get (1 # 2)%Q (Empty exited alive))]. simpl.
           repeat split. discriminate.
        -- destruct (poll_loop timeout env turns) as [events fin]. simpl in *.
           exists (Call (Get (1 # 2)%Q (Empty exited alive)) :: polling).
           simpl. rewrite Hshape. auto.
Qed.

Lemma run_shell_command_returns
  (timeout : Z) (env : shell_env) (before after : list poll) (ending : poll) :
  polls env = (before ++ ending :: after)%list ->
  forallb (keeps_polling timeout) before = true ->
  ends_loop timeout ending = true ->
  run_shell_command timeout env
  = ((polled before ++ Call (Get (1 # 2)%Q (got ending)) :: cleanup env)%list,
     Return)
  /\ yielded (fst (run_shell_command timeout env))
     = (got_lines before ++ lines_of (residue env))%list.
Proof.
  intros Hpolls Hbefore Hend.
  assert (Hrun : run_shell_command timeout env
                 = ((polled before
                     ++ Call (Get (1 # 2)%Q (got ending)) :: cleanup env)%list,
                    Return)).
  { unfold run_shell_command.
    now rewrite Hpolls, (poll_loop_app _ _ _ _ Hbefore),
      (poll_loop_end _ _ _ _ Hend). }
  split; [exact Hrun|].
  rewrite Hrun. cbn [fst]. rewrite yielded_app. cbn [yielded].
  now rewrite yielded_polled, yielded_cleanup.
Qed.

(** X5.  When a turn, in time, gets the end-of-stream marker, or gets
    nothing while the process has exited and the reader is dead, the turns
    before it having gone on polling, the generator returns after having
    waited for the process, joined the reader and drained the queue: it
    yields the lines got, in order, then the lines still in the queue, the
    marker among them left out. *)
Theorem generator_returns_and_drains
  (timeout : Z) (env : shell_env) (before after : list poll) (ending : poll) :
  polls env = (before ++ ending :: after)%list ->
  forallb (keeps_polling timeout) before = true ->
  ends_loop timeout ending = true ->
  run_shell_command timeout env
  = ((polled before ++ Call (Get (1 # 2)%Q (got ending)) :: cleanup env)%list,
     Return)
  /\ yielded (fst (run_shell_command timeout env))
     = (got_lines before ++ lines_of (residue env))%list.
Proof. apply run_shell_command_returns. Qed.

(** X6.  The generator is still polling at the end of the turns exactly
    when every turn was in time and neither got the marker nor found the
    process exited with the reader dead; a turn that finds the elapsed time
    above the timeout is never polled past. *)
Theorem generator_ends_by_deadline (timeout : Z) (env : shell_env) :
  (snd (run_shell_command timeout env) = Polling
   <-> forallb (keeps_polling timeout) (polls env) = true)
  /\ (existsb (is_late timeout) (polls env) = true ->
      snd (run_shell_command timeout env) <> Polling).
Proof.
  unfold run_shell_command.
  pose proof (poll_loop_polling timeout env (polls env)) as Hiff.
  split; [exact Hiff|]. intros Hlate Hpolling. apply Hiff in Hpolling.
  apply existsb_exists in Hlate as (turn & Hin & Hturn).
  rewrite forallb_forall in Hpolling. specialize (Hpolling turn Hin).
  unfold keeps_polling in Hpolling. unfold is_late in Hturn.
  apply andb_true_iff in Hpolling as [Hle _]. rewrite Hle in Hturn.
  discriminate.
Qed.

(** X7.  The generator calls [kill()] in two cases only: when it raises the
    timeout, and when it returns after [process.wait(timeout=5)] expired.  A
    process that exits within the five seconds of a run that ends in time is
    never killed. *)
Theorem kill_only_when_late_or_stuck (timeout : Z) (env : shell_env) :
  In (Call Kill) (fst (run_shell_command timeout env))
  <-> (exists message,
          snd (run_shell_command timeout env) = RaiseTimeout message)
      \/ (snd (run_shell_command timeout env) = Return
          /\ wait5_expired env = true).
Proof.
  unfold run_shell_command.
  destruct (poll_loop_shape timeout env (polls env))
    as (polling & Hp & Hshape & _).
  pose proof (polling_events_no_kill _ Hp) as Hno.
  rewrite Hshape, in_app_iff.
  destruct (snd (poll_loop timeout env (polls env))) as [|message|].
  - rewrite cleanup_kill. split.
    + intros [H|H]; [tauto|]. right. auto.
    + intros [[message H]|[_ H]]; [discriminate|]. right. exact H.
  - split; [|simpl; auto]. intros _. left. now exists message.
  - split.
    + intros [H|[]]. tauto.
    + intros [[message H]|[H _]]; discriminate.
Qed.

(** X8.  What the generator does is a run of gets and yields followed, when
    it raises the timeout, by [kill()] and a wait of two seconds and nothing
    else: the reader is not joined and the queue is not drained; when it
    returns, by the wait, the join and the drain.  The error it raises
    carries the message of the configured timeout. *)
Theorem generator_shape (timeout : Z) (env : shell_env) :
  exists polling,
    forallb is_polling_event polling = true
    /\ fst (run_shell_command timeout env)
       = (polling
          ++ match snd (run_shell_command timeout env) with
             | RaiseTimeout _ =>
                 [Call Kill; Call (Wait 2%Q (wait2_expired env))]
             | Return => cleanup env
             | Polling => []
             end)%list
    /\ (forall message,
           snd (run_shell_command timeout env) = RaiseTimeout message ->
           message = timeout_message timeout).
Proof. apply poll_loop_shape. Qed.

(** ** More on the consumer and on [gemini] *)

Lemma handle_event_extends (v : json) (st : aggregate) :
  (exists reply,
      agent_messages (fst (handle_event v st)) = agent_messages st ++ reply)
  /\ (is_None (thread_id (fst (handle_event v st))) = true ->
      is_None (thread_id st) = true).
Proof.
  assert (Hsame : exists reply, agent_messages st = agent_messages st ++ reply)
    by (exists ""; now rewrite append_nil_r).
  unfold handle_event, track_session.
  repeat match goal with
         | |- context [match ?x with _ => _ end] => destruct x eqn:?
         end;
    simpl; split; auto; try congruence; eexists; reflexivity.
Qed.

Lemma process_line_extends (st : aggregate) (line : string) :
  (exists events,
      all_messages (fst (process_line st line))
      = (all_messages st ++ events)%list)
  /\ (exists reply,
         agent_messages (fst (process_line st line))
         = agent_messages st ++ reply)
  /\ (exists entry,
         err_message (fst (process_line st line)) = err_message st ++ entry)
  /\ (is_None (thread_id (fst (process_line st line))) = true ->
      is_None (thread_id st) = true).
Proof.
  unfold process_line. destruct (json_loads (strip line)) as [v| |error].
  - destruct (handle_event_log v st) as [Hall Herr].
    destruct (handle_event_extends v st) as [Hagent Hsession].
    destruct (handle_event v st) as [st' [error|]]; simpl in *.
    + split; [now exists [v]|]. split; [exact Hagent|].
      split; [|exact Hsession]. rewrite Herr. eexists; reflexivity.
    + split; [now exists [v]|]. split; [exact Hagent|].
      split; [|exact Hsession]. exists "". now rewrite append_nil_r.
  - simpl. destruct (String.length (err_message st) <? 2000)%nat; simpl.
    + split; [exists []; now rewrite app_nil_r|].
      split; [exists ""; now rewrite append_nil_r|].
      split; [eexists; reflexivity|auto].
    + split; [exists []; now rewrite app_nil_r|].
      split; [exists ""; now rewrite append_nil_r|].
      split; [exists ""; now rewrite append_nil_r|auto].
  - simpl. split; [exists []; now rewrite app_nil_r|].
    split; [exists ""; now rewrite append_nil_r|].
    split; [eexists; reflexivity|auto].
Qed.

Lemma for_loop_extends (events : list gen_event) (fin : gen_end) :
  forall st,
    let r := for_loop events fin st in
    (exists more, all_messages (final r) = (all_messages st ++ more)%list)
    /\ (exists reply, agent_messages (final r) = agent_messages st ++ reply)
    /\ (exists entries, err_message (final r) = err_message st ++ entries)
    /\ (is_None (thread_id (final r)) = true -> is_None (thread_id st) = true).
Proof.
  induction events as [|[c|line] events IH]; intros st.
  - simpl. split; [exists []; now rewrite app_nil_r|].
    split; [exists ""; now rewrite append_nil_r|].
    split; [exists ""; now rewrite append_nil_r|auto].
  - simpl. apply IH.
  - destruct (process_line_extends st line)
      as ((ms & Hall) & (reply & Hagent) & (entry & Herr) & Hsession).
    cbn [for_loop]. destruct (process_line st line) as [st' [|]];
      cbn [fst] in *.
    + destruct (IH st')
        as ((ms' & Hall') & (reply' & Hagent') & (entry' & Herr') & Hsession').
      cbn zeta in *. rewrite Hall', Hagent', Herr', Hall, Hagent, Herr.
      split; [exists (ms ++ ms')%list; now rewrite app_assoc|].
      split; [exists (reply ++ reply'); now rewrite append_assoc|].
      split; [exists (entry ++ entry'); now rewrite append_assoc|auto].
    + simpl. rewrite Hall, Hagent, Herr.
      split; [now exists ms|]. split; [now exists reply|].
      split; [now exists entry|exact Hsession].
Qed.

Lemma check_gemini_auth_passes (p : probe) :
  fst (check_gemini_auth p) = true <-> exists out, p = Completed 0 out.
Proof.
  destruct p as [code out| | |e]; simpl.
  - rewrite Z.eqb_eq. split; [intros ->; now exists out|].
    now intros (out' & [= -> _]).
  - split; [discriminate|]. now intros (out & H).
  - split; [discriminate|]. now intros (out & H).
  - split; [discriminate|]. now intros (out & H).
Qed.

(** X9.  Whatever the lines, the loop of [gemini] only appends: the state
    it ends in extends the events, the assistant text and the error text of
    the state it starts from, and a session identifier once tracked is never
    lost to [None]. *)
Theorem consumer_only_appends
  (events : list gen_event) (fin : gen_end) (st : aggregate) :
  let r := for_loop events fin st in
  (exists more, all_messages (final r) = (all_messages st ++ more)%list)
  /\ (exists reply, agent_messages (final r) = agent_messages st ++ reply)
  /\ (exists entries, err_message (final r) = err_message st ++ entries)
  /\ (is_None (thread_id (final r)) = true -> is_None (thread_id st) = true).
Proof. apply for_loop_extends. Qed.

(** X11.  Every dict [gemini] returns has one of two forms: a success, with
    a [SESSION_ID] that is not [None], a non-empty [agent_messages] and no
    [error]; or a failure, with an [error] text and neither [SESSION_ID] nor
    [agent_messages]. *)
Theorem result_is_success_or_failure
  (env : gemini_env) (args : gemini_args) (result : dict) :
  snd (gemini env args) = Some result ->
  is_success result \/ is_failure result.
Proof.
  unfold gemini, is_success, is_failure.
  destruct (cd_exists env); simpl.
  2:{ intros [= <-]. right. simpl. repeat split. eexists; reflexivity. }
  destruct (check_gemini_auth (auth_probe env)) as [[|] auth_msg]; simpl.
  2:{ intros [= <-]. right. simpl. repeat split. eexists; reflexivity. }
  destruct (run_shell_command (timeout args) (shell env)) as [events fin].
  set (r := for_loop events fin initial).
  assert (Hverdict :
    is_success (build_result (final r) (return_all_messages args))
    \/ is_failure (build_result (final r) (return_all_messages args))).
  { unfold build_result, validate, is_success, is_failure.
    destruct (is_None (thread_id (final r))) eqn:Hnone; cbn [andb].
    - right. destruct (return_all_messages args); simpl; repeat split;
        eexists; reflexivity.
    - destruct (agent_messages (final r)) as [|c reply] eqn:Hagent;
        cbn [String.length Nat.eqb].
      + right. destruct (return_all_messages args); simpl; repeat split;
          eexists; reflexivity.
      + left. destruct (return_all_messages args); simpl;
          (split; [reflexivity|]); (split; [exact Hnone|]);
          (split; [|reflexivity]); eexists; (split; [reflexivity|]);
          discriminate. }
  destruct (exit r); simpl; intros [= <-]; try exact Hverdict.
  right. destruct (return_all_messages args); simpl; repeat split;
    eexists; reflexivity.
Qed.

(** X12.  When the workspace directory does not exist, [gemini] makes no
    call on a process and returns a failure whose error names the path. *)
Theorem missing_directory_spawns_nothing (env : gemini_env) (args : gemini_args) :
  cd_exists env = false ->
  exists e,
    gemini env args = ([], Some [("success", JBool false); ("error", JStr e)])
    /\ contains (cd_posix env) e = true.
Proof.
  intros Hcd.
  exists ("The workspace root directory `" ++ cd_posix env
          ++ "` does not exist.").
  split; [|apply contains_append].
  unfold gemini. now rewrite Hcd.
Qed.

(** X13.  When the probe [gemini --version] is anything but a completion
    with return code 0 (another code, a timeout, a missing executable,
    another exception), [gemini] makes no call on a process and returns a
    failure whose error holds the message of the probe and the advice to run
    [gemini auth login]. *)
Theorem failed_probe_spawns_nothing (env : gemini_env) (args : gemini_args) :
  cd_exists env = true ->
  (forall out, auth_probe env <> Completed 0 out) ->
  exists e,
    gemini env args = ([], Some [("success", JBool false); ("error", JStr e)])
    /\ contains (snd (check_gemini_auth (auth_probe env))) e = true
    /\ contains "gemini auth login" e = true.
Proof.
  intros Hcd Hprobe.
  pose proof (check_gemini_auth_passes (auth_probe env)) as Hpass.
  unfold gemini. rewrite Hcd. cbn [negb].
  destruct (check_gemini_auth (auth_probe env)) as [[|] auth_msg];
    cbn [fst snd negb] in *.
  - destruct Hpass as [Hpass _]. destruct (Hpass eq_refl) as (out & Hout).
    now elim (Hprobe out).
  - eexists. split; [reflexivity|]. split; [apply contains_append|].
    change (". " ++ "Please run 'gemini auth login' manually in your terminal.")
      with (". Please run '" ++ "gemini auth login"
            ++ "' manually in your terminal.").
    rewrite <- !append_assoc. rewrite append_assoc. apply contains_append.
Qed.

(** X14.  The argument vector handed to [Popen] for the command of [gemini]
    is never missing: its first element is the path [shutil.which] found,
    [gemini] when it found none, and it goes on with [--prompt], the prompt
    as one argument whatever it holds, [-o] and [stream-json]; the options
    after them are one per set flag and two per non-empty text, a non-empty
    [SESSION_ID] coming last, behind [--resume]. *)
Theorem popen_argv (which : option string) (args : gemini_args) :
  exists options,
    popen_cmd which (build_cmd args)
    = Some ((match which with
             | Some path => if is_empty path then "gemini" else path
             | None => "gemini"
             end)
            :: "--prompt" :: PROMPT args :: "-o" :: "stream-json" :: options)
    /\ List.length options
       = (if sandbox args then 1 else 0)
         + (if is_empty (model args) then 0 else 2)
         + (if is_empty (SESSION_ID args) then 0 else 2)
    /\ (is_empty (SESSION_ID args) = false ->
        exists front,
          options = (front ++ ["--resume"; SESSION_ID args])%list).
Proof.
  unfold build_cmd, popen_cmd. simpl. eexists. split; [reflexivity|].
  split.
  - rewrite !length_app.
    destruct (sandbox args), (is_empty (model args)),
      (is_empty (SESSION_ID args)); reflexivity.
  - intros Hsession. rewrite Hsession. rewrite app_assoc.
    eexists. reflexivity.
Qed.

(** X16.  With a negative timeout the first check of the polling loop
    already fails: the process is killed before any line is got, and the
    result is the timeout failure with no event. *)
Theorem negative_timeout_fails_at_once
  (env : gemini_env) (args : gemini_args) (turn : poll) (rest : list poll) :
  cd_exists env = true ->
  fst (check_gemini_auth (auth_probe env)) = true ->
  polls (shell env) = turn :: rest ->
  (timeout args < 0)%Z ->
  (0 <= elapsed turn)%Q ->
  gemini env args
  = ([Kill; Wait 2%Q (wait2_expired (shell env))],
     Some [("success", JBool false);
           ("error", JStr (timeout_message (timeout args)));
           ("all_messages",
            if return_all_messages args then JArr [] else JNull)]).
Proof.
  intros Hcd Hauth Hpolls Hneg Hclock.
  assert (Hlate : (inject_Z (timeout args) < elapsed turn)%Q).
  { apply Qlt_le_trans with (y := inject_Z 0); [|exact Hclock].
    now rewrite <- Zlt_Qlt. }
  unfold gemini, run_shell_command. rewrite Hcd. simpl.
  destruct (check_gemini_auth (auth_probe env)) as [auth_ok auth_msg].
  simpl in Hauth. subst auth_ok. simpl.
  rewrite Hpolls, (poll_loop_late _ _ _ _ Hlate). reflexivity.
Qed.

(** X17.  Lines still in the queue when the polling loop is left are folded
    into the result like the lines got before: after a run that returns,
    over lines that are malformed, events that are no assistant message or
    assistant messages with a text content, the loop is exhausted,
    [agent_messages] is the concatenation of the contents that do not hold
    the deprecation notice, those of the lines got followed by those of the
    lines drained, and [all_messages] holds the decoded events of them all
    in that order. *)
Theorem drained_lines_are_aggregated
  (timeout : Z) (env : shell_env) (before after : list poll) (ending : poll) :
  polls env = (before ++ ending :: after)%list ->
  forallb (keeps_polling timeout) before = true ->
  ends_loop timeout ending = true ->
  forallb stream_line (got_lines before ++ lines_of (residue env)) = true ->
  let r := for_loop (fst (run_shell_command timeout env))
             (snd (run_shell_command timeout env)) initial in
  exit r = Exhausted
  /\ agent_messages (final r)
     = concat_all
         (kept (contents (got_lines before ++ lines_of (residue env))))
  /\ all_messages (final r)
     = decoded (got_lines before ++ lines_of (residue env)).
Proof.
  intros Hpolls Hbefore Hend Hlines r.
  destruct (run_shell_command_returns _ _ _ _ _ Hpolls Hbefore Hend)
    as [Hrun Hyield].
  rewrite <- Hyield in *. subst r.
  destruct (for_loop_stream (fst (run_shell_command timeout env))
              (snd (run_shell_command timeout env)) initial Hlines)
    as (Hquiet & Hagent & _).
  destruct (for_loop_quiet (fst (run_shell_command timeout env))
              (snd (run_shell_command timeout env)) initial Hquiet)
    as (Hexit & _ & Hall & _).
  rewrite Hexit, Hagent, Hall, Hrun. auto.
Qed.

End Server.

(** ** The program on sample streams *)

Module Runs.

Import Concrete Sample.

(** C1 as stated fails: a sentinel line whose [put] found the queue full is
    not looked at; the reader neither sleeps nor terminates the process and
    reads the next line. *)
Lemma sentinel_dropped_keeps_reading :
  is_turn_completed json_loads (strip (raw completed)) = inr true
  /\ read_output json_loads
       [Line (raw completed) true; Line (raw hello) false]
     = ([Readline (Some (raw completed));
         Put (Some completed) (Some 1%Q) true;
         Readline (Some (raw hello));
         Put (Some hello) (Some 1%Q) false;
         Readline (Some "");
         CloseStdout;
         Put None None false],
        StreamClosed).
Proof. split; vm_compute; reflexivity. Qed.

(** A sentinel dropped on a full queue, then the same sentinel enqueued. *)
Lemma sentinel_enqueued_stops_reader_witness :
  read_output json_loads
    ([Line (raw init_a) false; Line (raw completed) true]
     ++ Line (raw completed) false :: [Line (raw hello) false])%list
  = ((relayed [Line (raw init_a) false; Line (raw completed) true]
      ++ [Readline (Some (raw completed));
          Put (Some (strip (raw completed))) (Some 1%Q) false;
          Sleep GRACEFUL_SHUTDOWN_DELAY; Terminate;
          CloseStdout; Put None None false])%list,
     SentinelSeen).
Proof.
  apply (sentinel_enqueued_stops_reader json_loads); vm_compute; reflexivity.
Defined.


(** C8 as stated fails: the [put] of the end-of-stream marker is called
    with no timeout. *)
Lemma marker_put_has_no_timeout :
  read_output json_loads []
  = ([Readline (Some ""); CloseStdout; Put None None false], StreamClosed)
  /\ every_put_bounded (fst (read_output json_loads [])) = false.
Proof. split; vm_compute; reflexivity. Qed.

(** C4 as stated fails: the content of the second message is not the
    notice itself, only holds it, and is left out all the same. *)
Lemma longer_warning_is_skipped :
  contents json_loads [init_a; hello; warned; world_b]
  = ["Hello"; warning; " world"]
  /\ kept_exact (contents json_loads [init_a; hello; warned; world_b])
     = ["Hello"; warning; " world"]
  /\ snd (gemini json_loads str_of_error
            (stream [init_a; hello; warned; world_b]) (ask false))
     = Some [("success", JBool true);
             ("SESSION_ID", JStr "b");
             ("agent_messages", JStr "Hello world")].
Proof. repeat split; vm_compute; reflexivity. Qed.

(** Two replies around a malformed line, the warning and a tool event. *)
Lemma agent_text_is_kept_contents_witness :
  agent_messages
    (final (for_loop json_loads str_of_error
              (map Yield [init_a; hello; noise; warned; tool_use; world_b])
              Return initial))
  = concat_all
      (kept (contents json_loads
               (yielded (map Yield
                           [init_a; hello; noise; warned; tool_use; world_b])))).
Proof.
  apply (agent_text_is_kept_contents json_loads str_of_error).
  vm_compute; reflexivity.
Defined.

(** C5.  The code on the failing input: the lines bear the session
    identifiers [a] and [b] in this order and the one returned is [a], the
    [continue] taken for the deprecation notice leaving the line that bears
    [b] before its [session_id] is looked at. *)
Lemma session_of_skipped_notice_is_lost :
  map (session_of json_loads) [init_a; hello; warned_b]
  = [JStr "a"; JNull; JStr "b"]
  /\ snd (gemini json_loads str_of_error
            (stream [init_a; hello; warned_b]) (ask false))
     = Some [("success", JBool true);
             ("SESSION_ID", JStr "a");
             ("agent_messages", JStr "Hello")].
Proof. split; vm_compute; reflexivity. Qed.

(** A notice that bears [b] comes first; the identifier [a] of the line
    after it is the one tracked, two lines without one following. *)
Lemma last_session_id_wins_witness :
  thread_id
    (final (for_loop json_loads str_of_error
              (map Yield [warned_b; init_a; hello; noise])
              Return initial))
  = session_of json_loads init_a.
Proof.
  apply (last_session_id_wins json_loads str_of_error
           (map Yield [warned_b; init_a; hello; noise])
           Return [warned_b] [hello; noise] init_a);
    vm_compute; reflexivity.
Defined.

(** C7 as stated fails: of eleven malformed lines ten are recorded, and the
    error text is 2210 characters long. *)
Lemma eleventh_decode_error_is_dropped :
  let lines := repeat long_noise 11 in
  let r := for_loop json_loads str_of_error (map Yield lines) Return initial in
  List.length (filter (malformed json_loads) lines) = 11
  /\ err_message (final r)
     = concat_all (map decode_entry (firstn 10 lines))
  /\ err_message (final r) <> concat_all (map decode_entry lines)
  /\ String.length (err_message (final r)) = 2210.
Proof.
  repeat split; try (vm_compute; reflexivity).
  intros H. apply (f_equal String.length) in H. vm_compute in H.
  discriminate H.
Qed.

(** Eleven malformed lines of 200 characters among two events. *)
Lemma decode_errors_logged_until_cap_witness :
  let events := map Yield (init_a :: repeat long_noise 11 ++ [hello])%list in
  let r := for_loop json_loads str_of_error events Return initial in
  let bad := filter (malformed json_loads) (yielded events) in
  all_messages (final r) = decoded json_loads (yielded events)
  /\ (exists k,
         k <= List.length bad
         /\ err_message (final r)
            = concat_all (map decode_entry (firstn k bad))
         /\ (forall j,
                j < k ->
                String.length (concat_all (map decode_entry (firstn j bad)))
                < 2000)
         /\ (k < List.length bad ->
             2000 <= String.length (err_message (final r))))
  /\ Forall (fun line =>
               String.length (slice_to 200 line) <= 200
               /\ exists rest, line = slice_to 200 line ++ rest) bad
  /\ String.length (err_message (final r)) <= 2220.
Proof.
  apply (decode_errors_logged_until_cap json_loads str_of_error).
  vm_compute; reflexivity.
Defined.

(** The third turn comes 301 seconds in, with a timeout of 300. *)
Lemma timeout_kills_and_fails_witness :
  gemini json_loads str_of_error
    (env_of [line_turn init_a; line_turn hello; late; closing]) (ask true)
  = ((called (polled [line_turn init_a; line_turn hello])
      ++ [Kill; Wait 2%Q false])%list,
     Some [("success", JBool false);
           ("error", JStr (timeout_message DEFAULT_TIMEOUT));
           ("all_messages",
            JArr (decoded json_loads
                    (yielded (polled [line_turn init_a; line_turn hello]))))])
  /\ contains (str_of_int DEFAULT_TIMEOUT) (timeout_message DEFAULT_TIMEOUT)
     = true.
Proof.
  apply (timeout_kills_and_fails json_loads str_of_error
           (env_of [line_turn init_a; line_turn hello; late; closing])
           (ask true) [line_turn init_a; line_turn hello] [closing] late);
    vm_compute; reflexivity.
Defined.

(** A reply but no session identifier: the missing-session failure. *)
Lemma verdict_precedence_witness :
  exists result,
    snd (gemini json_loads str_of_error
           (stream [hello; noise; tool_use]) (ask false)) = Some result
    /\ dict_get result "success" JNull = JBool false
    /\ exists rest, dict_get result "error" JNull = JStr (NO_SESSION ++ rest).
Proof.
  destruct (verdict_precedence json_loads str_of_error
              (stream [hello; noise; tool_use]) (ask false)
              eq_refl eq_refl (or_introl eq_refl))
    as (result & Hresult & Hmissing & _).
  exists result. split; [exact Hresult|]. apply Hmissing. reflexivity.
Defined.

(** A content that is a list, met with an error text of 2000 characters
    already: the entry is appended and the two replies after it are not
    looked at. *)
Lemma unexpected_error_ends_consumption_witness :
  for_loop json_loads str_of_error
    (Yield parts :: map Yield [hello; world_b]) Return
    {| all_messages := []; agent_messages := "";
       err_message := replicate 2000 "e"; thread_id := JStr "a" |}
  = {| final :=
         {| all_messages :=
              [JObj [("type", JStr "message"); ("role", JStr "assistant");
                     ("content", JArr [JStr "Hello"])]];
            agent_messages := "";
            err_message := replicate 2000 "e" ++ LF ++ "[unexpected error] "
                           ++ str_of_error (CannotConcat "list");
            thread_id := JStr "a" |};
       calls := [];
       exit := Broke |}.
Proof.
  apply (unexpected_error_ends_consumption json_loads str_of_error
           {| all_messages := []; agent_messages := "";
              err_message := replicate 2000 "e"; thread_id := JStr "a" |}
           parts
           (JObj [("type", JStr "message"); ("role", JStr "assistant");
                  ("content", JArr [JStr "Hello"])])
           (CannotConcat "list"));
    vm_compute; reflexivity.
Defined.

(** A run that times out without [return_all_messages]: the key is there,
    with [None]. *)
Lemma all_messages_key_presence_witness :
  let result := [("success", JBool false);
                 ("error", JStr (timeout_message DEFAULT_TIMEOUT));
                 ("all_messages", JNull)] in
  snd (gemini json_loads str_of_error
         (env_of [line_turn init_a; late]) (ask false)) = Some result
  /\ dict_has result "all_messages" = true
  /\ dict_get result "all_messages" (JStr "absent") = JNull.
Proof.
  intros result.
  assert (Hrun : snd (gemini json_loads str_of_error
                        (env_of [line_turn init_a; late]) (ask false))
                 = Some result) by (vm_compute; reflexivity).
  destruct (all_messages_key_presence json_loads str_of_error
              (env_of [line_turn init_a; late]) (ask false) result Hrun)
    as [Htimeout _].
  destruct Htimeout as [Hkey Hnone]; [vm_compute; reflexivity|].
  split; [exact Hrun|]. split; [exact Hkey|]. apply Hnone. reflexivity.
Defined.

(** A line dropped on a full queue between two that are enqueued. *)
Lemma reader_relays_every_line_witness :
  read_output json_loads
    [Line (raw init_a) false; Line (raw hello) true; Line (raw tool_use) false]
  = ((relayed [Line (raw init_a) false; Line (raw hello) true;
               Line (raw tool_use) false]
      ++ [Readline (Some ""); CloseStdout; Put None None false])%list,
     StreamClosed).
Proof.
  apply (reader_relays_every_line json_loads); vm_compute; reflexivity.
Defined.

(** The third turn finds the process exited and the reader dead. *)
Lemma generator_returns_and_drains_witness :
  run_shell_command DEFAULT_TIMEOUT draining
  = ((polled [line_turn init_a; {| elapsed := 2%Q; got := Empty false true |}]
      ++ Call (Get (1 # 2)%Q (Empty true false)) :: cleanup draining)%list,
     Return)
  /\ yielded (fst (run_shell_command DEFAULT_TIMEOUT draining))
     = (got_lines [line_turn init_a;
                   {| elapsed := 2%Q; got := Empty false true |}]
        ++ lines_of (residue draining))%list.
Proof.
  apply (generator_returns_and_drains DEFAULT_TIMEOUT draining
           [line_turn init_a; {| elapsed := 2%Q; got := Empty false true |}]
           [closing] {| elapsed := 3%Q; got := Empty true false |});
    vm_compute; reflexivity.
Defined.

(** A reply with a session identifier: the success form. *)
Lemma result_is_success_or_failure_witness :
  is_success [("success", JBool true);
              ("SESSION_ID", JStr "a");
              ("agent_messages", JStr "Hello");
              ("all_messages",
               JArr [JObj [("type", JStr "init"); ("session_id", JStr "a")];
                     JObj [("type", JStr "message");
                           ("role", JStr "assistant");
                           ("content", JStr "Hello")]])]
  \/ is_failure [("success", JBool true);
                 ("SESSION_ID", JStr "a");
                 ("agent_messages", JStr "Hello");
                 ("all_messages",
                  JArr [JObj [("type", JStr "init"); ("session_id", JStr "a")];
                        JObj [("type", JStr "message");
                              ("role", JStr "assistant");
                              ("content", JStr "Hello")]])].
Proof.
  apply (result_is_success_or_failure json_loads str_of_error
           (stream [init_a; hello]) (ask true)).
  vm_compute; reflexivity.
Defined.

Lemma missing_directory_spawns_nothing_witness :
  exists e,
    gemini json_loads str_of_error no_directory (ask false)
    = ([], Some [("success", JBool false); ("error", JStr e)])
    /\ contains "/nowhere" e = true.
Proof.
  apply (missing_directory_spawns_nothing json_loads str_of_error
           no_directory (ask false)).
  reflexivity.
Defined.

Lemma failed_probe_spawns_nothing_witness :
  exists e,
    gemini json_loads str_of_error no_cli (ask false)
    = ([], Some [("success", JBool false); ("error", JStr e)])
    /\ contains "Gemini CLI not found in PATH" e = true
    /\ contains "gemini auth login" e = true.
Proof.
  apply (failed_probe_spawns_nothing json_loads str_of_error
           no_cli (ask false)); [reflexivity|].
  intros out H. discriminate H.
Defined.

(** A timeout of -1 second, the first check coming one second in. *)
Lemma negative_timeout_fails_at_once_witness :
  gemini json_loads str_of_error (env_of [line_turn init_a; closing]) hurried
  = ([Kill; Wait 2%Q false],
     Some [("success", JBool false);
           ("error", JStr (timeout_message (-1)));
           ("all_messages", JArr [])]).
Proof.
  apply (negative_timeout_fails_at_once json_loads str_of_error
           (env_of [line_turn init_a; closing]) hurried
           (line_turn init_a) [closing]);
    try reflexivity; vm_compute; discriminate.
Defined.

(** One line got, two drained after the reader died. *)
Lemma drained_lines_are_aggregated_witness :
  let r := for_loop json_loads str_of_error
             (fst (run_shell_command DEFAULT_TIMEOUT draining))
             (snd (run_shell_command DEFAULT_TIMEOUT draining)) initial in
  exit r = Exhausted
  /\ agent_messages (final r)
     = concat_all
         (kept (contents json_loads
                  (got_lines [line_turn init_a;
                              {| elapsed := 2%Q; got := Empty false true |}]
                   ++ lines_of (residue draining))))
  /\ all_messages (final r)
     = decoded json_loads
         (got_lines [line_turn init_a;
                     {| elapsed := 2%Q; got := Empty false true |}]
          ++ lines_of (residue draining)).
Proof.
  apply (drained_lines_are_aggregated json_loads str_of_error
           DEFAULT_TIMEOUT draining
           [line_turn init_a; {| elapsed := 2%Q; got := Empty false true |}]
           [closing] {| elapsed := 3%Q; got := Empty true false |});
    vm_compute; reflexivity.
Defined.

(** A line on which [json.loads] raises [ValueError]: the reader enqueues
    it, dies in the sentinel check with the stream closed and no marker, and
    reads no further; the consumer logs the error and leaves its loop, and
    the result is still a success from what was gathered before. *)
Lemma overlong_integer_ends_both_loops :
  read_output json_loads
    [Line (raw hello) false; Line (raw overlong) false; Line (raw world_b) false]
  = ([Readline (Some (raw hello)); Put (Some hello) (Some 1%Q) false;
      Readline (Some (raw overlong)); Put (Some overlong) (Some 1%Q) false;
      CloseStdout],
     CheckFailed)
  /\ exit (for_loop json_loads str_of_error
             (map Yield [init_a; hello; overlong; world_b]) Return initial)
     = Broke
  /\ snd (gemini json_loads str_of_error
            (stream [init_a; hello; overlong; world_b]) (ask false))
     = Some [("success", JBool true);
             ("SESSION_ID", JStr "a");
             ("agent_messages", JStr "Hello")].
Proof. repeat split; vm_compute; reflexivity. Qed.

End Runs.
